(** * A shallow embedding of notnow's selection, task and state logic

    Sources: src/selection.rs, src/tasks.rs, src/state.rs.
    Rust's [isize] counters are modelled as [Z] (their overflow, after
    2^63 calls of [advance], is not modelled); Rust's [%] is [Z.rem]
    (truncating), and a remainder by zero, like an [unwrap] on [None],
    is a panic, modelled as [None]. *)

From Stdlib Require Import ZArith Lia.
From stdpp Require Import base gmap list strings sorting.

Open Scope Z_scope.

(* ===================================================================== *)
(** ** selection.rs *)
(* ===================================================================== *)

(** [Iterator::position]: index of the first element satisfying [p]. *)
Fixpoint position {T} (p : T -> bool) (l : list T) : option nat :=
  match l with
  | [] => None
  | x :: l' => if p x then Some 0%nat else S <$> position p l'
  end.

Module Selection.

(** [enum Selection<T> { Start(T), Normalized(usize) }] *)
Inductive Selection (T : Type) : Type :=
| Start (start : T)
| Normalized (idx : nat).
Arguments Start {T} start.
Arguments Normalized {T} idx.

(** [struct SelectionState<T>] *)
Record SelectionState (T : Type) : Type := mkState {
  selection : Selection T;
  reversed : bool;
  advanced : Z;
  total : Z;
}.
Arguments mkState {T} selection reversed advanced total.
Arguments selection {T} s.
Arguments reversed {T} s.
Arguments advanced {T} s.
Arguments total {T} s.

(** Rust's [x % y] on signed integers: truncating remainder; a zero
    divisor panics. *)
Definition rust_rem (x y : Z) : option Z :=
  if Z.eqb y 0 then None else Some (Z.rem x y).

(** [fn modulo(x, y) { ((x % y) + y) % y }] *)
Definition modulo (x y : Z) : option Z :=
  r ← rust_rem x y; rust_rem (r + y) y.

Section Generic.
Context {T : Type} `{EqDecision T}.

(** [Selection::index]; the [unwrap] panics ([None]) when the start key
    is not found. *)
Definition index (sel : Selection T) (iter : list T) : option nat :=
  match sel with
  | Start start => position (fun x => bool_decide (x = start)) iter
  | Normalized idx => Some idx
  end.

(** [SelectionState::new] *)
Definition new (current : T) : SelectionState T :=
  mkState (Start current) false 0 0.

(** [SelectionState::reverse] *)
Definition reverse (st : SelectionState T) (rev : bool) : SelectionState T :=
  mkState (selection st) rev (advanced st) (total st).

(** [SelectionState::advance] *)
Definition advance (st : SelectionState T) : SelectionState T :=
  let change := if reversed st then -1 else 1 in
  mkState (selection st) (reversed st) (advanced st + change) (total st + change).

(** [SelectionState::has_advanced] *)
Definition has_advanced (st : SelectionState T) : bool :=
  negb (Z.eqb (advanced st) 0).

(** [SelectionState::reset_cycled] *)
Definition reset_cycled (st : SelectionState T) : SelectionState T :=
  mkState (selection st) (reversed st) (advanced st) 0.

(** [SelectionState::has_cycled]: [self.total.abs() as usize > count] *)
Definition has_cycled (st : SelectionState T) (count : nat) : bool :=
  Z.ltb (Z.of_nat count) (Z.abs (total st)).

(** [SelectionState::normalize]: returns the new index and the updated
    state, or [None] when the code panics. *)
Definition normalize (st : SelectionState T) (iter : list T)
    : option (nat * SelectionState T) :=
  let count := Z.of_nat (length iter) in
  start_idx ← index (selection st) iter;
  idx ← modulo (Z.of_nat start_idx + advanced st) count;
  Some (Z.to_nat idx,
        mkState (Normalized (Z.to_nat idx)) (reversed st) 0 (total st)).

(** [n] successive calls of [advance]. *)
Fixpoint advance_n (n : nat) (st : SelectionState T) : SelectionState T :=
  match n with
  | O => st
  | S n' => advance_n n' (advance st)
  end.

(** The public operations of a [SelectionState], as a caller issues
    them. *)
Inductive Op : Type :=
| OpAdvance
| OpReverse (rev : bool)
| OpNormalize (iter : list T)
| OpResetCycled.

Definition step (o : Op) (st : SelectionState T) : option (SelectionState T) :=
  match o with
  | OpAdvance => Some (advance st)
  | OpReverse rev => Some (reverse st rev)
  | OpNormalize iter => snd <$> normalize st iter
  | OpResetCycled => Some (reset_cycled st)
  end.

(** Run a sequence of operations; [None] when one of them panics. *)
Fixpoint run (ops : list Op) (st : SelectionState T) : option (SelectionState T) :=
  match ops with
  | [] => Some st
  | o :: ops' => st' ← step o st; run ops' st'
  end.

Definition is_advance (o : Op) : bool :=
  match o with OpAdvance => true | _ => false end.

Definition is_reset (o : Op) : bool :=
  match o with OpResetCycled => true | _ => false end.

Definition count_advances (ops : list Op) : nat :=
  length (List.filter is_advance ops).

End Generic.

End Selection.

(* ===================================================================== *)
(** ** Results and I/O errors *)
(* ===================================================================== *)

(** Rust's [Result<A, E>]. *)
Inductive result (A E : Type) : Type :=
| Ok (a : A)
| Err (e : E).
Arguments Ok {A E} a.
Arguments Err {A E} e.

Definition bind_result {A B E} (r : result A E) (f : A -> result B E) : result B E :=
  match r with
  | Ok a => f a
  | Err e => Err e
  end.

(** [let x = r?; k] *)
Notation "x ?← r ; k" := (bind_result r (fun x => k))
  (at level 20, r at level 100, k at level 200, right associativity).

(** [std::io::ErrorKind] (the kinds the code distinguishes, and others). *)
Inductive ErrorKind : Type :=
| NotFound
| InvalidInput
| InvalidData
| PermissionDenied
| OtherKind.

#[global] Instance ErrorKind_eq_dec : EqDecision ErrorKind.
Proof. solve_decision. Defined.

(** [std::io::Error]: a kind and a message. *)
Record IoError : Type := mkIoError {
  io_kind : ErrorKind;
  io_msg : string;
}.

(* ===================================================================== *)
(** ** Decimal rendering and substring search *)
(* ===================================================================== *)

Module Fmt.

Fixpoint digits (fuel : nat) (n : N) (acc : string) : string :=
  match fuel with
  | O => acc
  | S f =>
      let acc' := String (Ascii.ascii_of_N (48 + N.modulo n 10)) acc in
      if N.ltb n 10 then acc' else digits f (N.div n 10) acc'
  end.

(** Modelled from the spec: the [Display] of a serialized tag id
    (ser/tags.rs, not in src/), its decimal number, as the test
    [load_state_with_invalid_tag] of state.rs shows ("... Id 42"). *)
Definition show_N (n : N) : string := digits (S (N.size_nat n)) n "".

(** [s.contains(sub)] *)
Fixpoint contains (s sub : string) : bool :=
  String.prefix sub s ||
  match s with
  | EmptyString => false
  | String _ s' => contains s' sub
  end.

End Fmt.

(* ===================================================================== *)
(** ** tags.rs (not in src/) and ser/tasks.rs *)
(* ===================================================================== *)

Module Tags.

(** Modelled from the spec: tags.rs is not in src/.  A [Tag] is [{id}]
    referencing a template; the registry records its templates and the
    id of the completion marker ([Templates::complete_tag]). *)
Record Tag : Type := mkTag { tag_id : N }.

Record Template : Type := mkTemplate {
  tmpl_id : N;
  tmpl_name : string;
}.

Record Templates : Type := mkTemplates {
  templates : list Template;
  complete_id : N;
}.

(** Modelled from the spec: [Templates::instantiate(id)] returns a Tag
    bound to that id. *)
Definition instantiate (ts : Templates) (id : N) : Tag := mkTag id.

(** Modelled from the spec: [Templates::complete_tag()]. *)
Definition complete_tag (ts : Templates) : Tag := instantiate ts (complete_id ts).

(** [TagMap]: the load-time validation map from serialized tag ids to
    tag ids. *)
Abbreviation TagMap := (gmap N N).

(** ser::tags::Tag *)
Record SerTag : Type := mkSerTag { ser_tag_id : N }.

(** Modelled from the spec: [Tag::to_serde]. *)
Definition tag_to_serde (t : Tag) : SerTag := mkSerTag (tag_id t).

End Tags.

Module SerTasks.
Import Tags.

(** ser::tasks::Task *)
Record SerTask : Type := mkSerTask {
  ser_summary : string;
  ser_tags : list SerTag;
}.

End SerTasks.

(* ===================================================================== *)
(** ** tasks.rs *)
(* ===================================================================== *)

Module Tasks.
Import Tags SerTasks.

(** Modelled from the spec: id.rs is not in src/.  [Id::new()] draws
    from a monotonically increasing counter; the counter is threaded
    explicitly as the [nat] argument [next] and returned incremented. *)
Abbreviation Id := nat.

(** [struct Task]: the tags are a [BTreeMap<TagId, Tag>]. *)
Record Task : Type := mkTask {
  id : Id;
  summary : string;
  tags : gmap N Tag;
  task_templates : Templates;
}.

(** [struct Tasks] *)
Record Tasks : Type := mkTasks {
  tasks_templates : Templates;
  tasks : list Task;
}.

(** Key order of a [BTreeMap] iteration. *)
Definition key_le (p q : N * Tag) : Prop := (p.1 <= q.1)%N.
#[global] Instance key_le_dec : RelDecision key_le :=
  fun p q => decide ((p.1 <= q.1)%N).

(** [BTreeMap::iter]: the entries in ascending key order. *)
Definition btree_iter (m : gmap N Tag) : list (N * Tag) :=
  merge_sort key_le (map_to_list m).

(** [tags.drain(..).map(|x| (x.id(), x)).collect()] into a [BTreeMap]:
    the entries are inserted in order. *)
Definition collect_tags (l : list Tag) : gmap N Tag :=
  foldl (fun m x => <[tag_id x := x]> m) ∅ l.

(** [Task::with_summary_and_tags] *)
Definition with_summary_and_tags (summary : string) (tags : list Tag)
    (templates : Templates) (next : Id) : Task * Id :=
  (mkTask next summary (collect_tags tags) templates, S next).

(** The error [Task::with_serde] reports for an unknown tag id. *)
Definition invalid_tag_error (tag : N) : IoError :=
  mkIoError InvalidInput ("Encountered invalid tag Id " ++ Fmt.show_N tag).

(** The loop of [Task::with_serde] over the serialized tags. *)
Fixpoint resolve_tags (templates : Templates) (map : TagMap)
    (acc : gmap N Tag) (l : list SerTag) : result (gmap N Tag) IoError :=
  match l with
  | [] => Ok acc
  | tag :: l' =>
      match map !! ser_tag_id tag with
      | None => Err (invalid_tag_error (ser_tag_id tag))
      | Some i => resolve_tags templates map (<[i := instantiate templates i]> acc) l'
      end
  end.

(** [Task::with_serde] *)
Definition task_with_serde (task : SerTask) (templates : Templates) (map : TagMap)
    (next : Id) : result (Task * Id) IoError :=
  tags ?← resolve_tags templates map ∅ (ser_tags task);
  Ok (mkTask next (ser_summary task) tags templates, S next).

(** [Task::to_serde] *)
Definition task_to_serde (t : Task) : SerTask :=
  mkSerTask (summary t) (List.map (fun p => tag_to_serde p.2) (btree_iter (tags t))).

(** [Task::is_complete] *)
Definition is_complete (t : Task) : bool :=
  let i := tag_id (complete_tag (task_templates t)) in
  bool_decide (is_Some (tags t !! i)).

(** [Task::toggle_complete]: [remove] the completion tag; if it was
    absent, insert a fresh instance. *)
Definition toggle_complete (t : Task) : Task :=
  let i := tag_id (complete_tag (task_templates t)) in
  let removed := tags t !! i in
  let tags' := delete i (tags t) in
  let tags'' :=
    match removed with
    | None => <[i := instantiate (task_templates t) i]> tags'
    | Some _ => tags'
    end in
  mkTask (id t) (summary t) tags'' (task_templates t).

(** The loop of [Tasks::with_serde]. *)
Fixpoint tasks_with_serde_loop (l : list SerTask) (templates : Templates)
    (map : TagMap) (acc : list Task) (next : Id) : result (list Task * Id) IoError :=
  match l with
  | [] => Ok (acc, next)
  | t :: l' =>
      p ?← task_with_serde t templates map next;
      tasks_with_serde_loop l' templates map (acc ++ [p.1]) p.2
  end.

(** [Tasks::with_serde] *)
Definition tasks_with_serde (l : list SerTask) (templates : Templates) (map : TagMap)
    (next : Id) : result (Tasks * Id) IoError :=
  p ?← tasks_with_serde_loop l templates map [] next;
  Ok (mkTasks templates p.1, p.2).

(** [Tasks::to_serde] *)
Definition tasks_to_serde (ts : Tasks) : list SerTask :=
  List.map task_to_serde (tasks ts).

(** [Tasks::iter] *)
Definition iter (ts : Tasks) : list Task := tasks ts.

(** [Tasks::add] *)
Definition add (ts : Tasks) (summary : string) (tags : list Tag) (next : Id)
    : (Id * Tasks) * Id :=
  let (task, next') := with_summary_and_tags summary tags (tasks_templates ts) next in
  ((id task, mkTasks (tasks_templates ts) (tasks ts ++ [task])), next').

(** [Tasks::remove]: the [unwrap] panics ([None]) when no task has [i]. *)
Definition remove (ts : Tasks) (i : Id) : option Tasks :=
  pos ← position (fun x => Nat.eqb (id x) i) (tasks ts);
  Some (mkTasks (tasks_templates ts) (delete pos (tasks ts))).

(** [Tasks::update]: [self.tasks[x] = task] at the first match; the
    [unwrap] panics ([None]) when there is none. *)
Definition update (ts : Tasks) (task : Task) : option Tasks :=
  pos ← position (fun x => Nat.eqb (id x) (id task)) (tasks ts);
  Some (mkTasks (tasks_templates ts) (<[pos := task]> (tasks ts))).

End Tasks.

(* ===================================================================== *)
(** ** state.rs *)
(* ===================================================================== *)

Module State.
Import Tags SerTasks Tasks.

(** Modelled from the spec: query.rs is not in src/.  A query is a name
    and a filter over tag ids; the empty filter matches all tasks. *)
Record Query : Type := mkQuery {
  query_name : string;
  query_filter : list N;
}.

(** Modelled from the spec: [QueryBuilder::new(tasks).build("all")],
    the implicit query with the empty predicate. *)
Definition all_query : Query := mkQuery "all" [].

(** ser::tags::Template *)
Record SerTemplate : Type := mkSerTemplate {
  ser_tmpl_id : N;
  ser_tmpl_name : string;
}.

(** ser::state::TaskState; its [Default] has no templates and no tasks. *)
Record SerTaskState : Type := mkSerTaskState {
  ser_templates : list SerTemplate;
  ser_tasks : list SerTask;
}.

Definition default_task_state : SerTaskState := mkSerTaskState [] [].

(** [struct State] *)
Record State : Type := mkState {
  prog_path : string;
  task_path : string;
  st_templates : Templates;
  queries : list Query;
  st_tasks : Tasks;
}.

Section Load.

(** The collaborators that are not in src/: serialized queries and their
    conversion (query.rs), the registry's conversion (tags.rs), the file
    system and the JSON reader. *)
Variable SerQuery : Type.
Variable query_with_serde : SerQuery -> Templates -> TagMap -> result Query IoError.
Variable query_to_serde : Query -> SerQuery.
Variable templates_with_serde : list SerTemplate -> Templates * TagMap.
Variable templates_to_serde : Templates -> list SerTemplate.

(** [File::open] on a path, and [from_reader] on the opened file. *)
Variable File : Type.
Variable open_file : string -> result File IoError.
Variable JsonError : Type.
(** The [From<serde_json::Error> for io::Error] conversion that [?]
    applies. *)
Variable io_of_json : JsonError -> IoError.

(** ser::state::ProgState; its [Default] has no queries. *)
Record SerProgState : Type := mkSerProgState {
  ser_queries : list SerQuery;
}.

Definition default_prog_state : SerProgState := mkSerProgState [].

Variable parse_prog : File -> result SerProgState JsonError.
Variable parse_task : File -> result SerTaskState JsonError.

(** [State::load_state] *)
Definition load_state {T : Type} (dflt : T) (from_reader : File -> result T JsonError)
    (path : string) : result T IoError :=
  match open_file path with
  | Ok file =>
      match from_reader file with
      | Ok v => Ok v
      | Err j => Err (io_of_json j)
      end
  | Err e =>
      if decide (io_kind e = NotFound) then Ok dflt else Err e
  end.

(** The loop of [State::with_serde] over the persisted queries. *)
Fixpoint queries_with_serde (l : list SerQuery) (templates : Templates)
    (map : TagMap) (acc : list Query) : result (list Query) IoError :=
  match l with
  | [] => Ok acc
  | q :: l' =>
      q' ?← query_with_serde q templates map;
      queries_with_serde l' templates map (acc ++ [q'])
  end.

(** [State::with_serde]; [next] is the task id counter. *)
Definition with_serde (prog_state : SerProgState) (prog_path : string)
    (task_state : SerTaskState) (task_path : string) (next : Id)
    : result (State * Id) IoError :=
  let (templates, map) := templates_with_serde (ser_templates task_state) in
  p ?← tasks_with_serde (ser_tasks task_state) templates map next;
  qs ?← queries_with_serde (ser_queries prog_state) templates map [all_query];
  Ok (mkState prog_path task_path templates qs p.1, p.2).

(** [State::new] *)
Definition new (prog_path task_path : string) (next : Id) : result (State * Id) IoError :=
  prog_state ?← load_state default_prog_state parse_prog prog_path;
  task_state ?← load_state default_task_state parse_task task_path;
  with_serde prog_state prog_path task_state task_path next.

(** [State::to_serde]: the first query, the implicit "all" query, is
    skipped. *)
Definition to_serde (st : State) : SerProgState * SerTaskState :=
  (mkSerProgState (List.map query_to_serde (skipn 1 (queries st))),
   mkSerTaskState (templates_to_serde (st_templates st)) (tasks_to_serde (st_tasks st))).

End Load.

End State.

(* ===================================================================== *)
(** ** Task equality (tasks.rs) *)
(* ===================================================================== *)

Module TaskEq.
Import Tags Tasks.

#[global] Instance Tag_eq_dec : EqDecision Tag.
Proof. solve_decision. Defined.


End TaskEq.

(* ===================================================================== *)
(** ** ser/tasks.rs: [Tasks::validate_tags] *)
(* ===================================================================== *)

Module SerTaskDoc.
Import Tags SerTasks State.

(** ser::tasks::Tasks: the templates and the tasks of a task document. *)
Record SerTaskDoc : Type := mkSerTaskDoc {
  doc_templates : list SerTemplate;
  doc_tasks : list SerTask;
}.

(** Modelled from the spec: [ser::tags::Templates::is_valid] (not in
    src/) holds for the ids of the document's templates. *)
Definition is_valid (templates : list SerTemplate) (i : N) : bool :=
  existsb (fun t => N.eqb (ser_tmpl_id t) i) templates.

Fixpoint validate_tags_of (templates : list SerTemplate) (l : list SerTag) : result unit IoError :=
  match l with
  | [] => Ok tt
  | tag :: l' =>
      if is_valid templates (ser_tag_id tag) then validate_tags_of templates l'
      else Err (Tasks.invalid_tag_error (ser_tag_id tag))
  end.

(** [Tasks::validate_tags]: the first invalid tag id, in task and then
    tag order, is reported, with the message [Task::with_serde] uses. *)
Fixpoint validate_tasks (templates : list SerTemplate) (l : list SerTask) : result unit IoError :=
  match l with
  | [] => Ok tt
  | t :: l' =>
      _ ?← validate_tags_of templates (ser_tags t);
      validate_tasks templates l'
  end.

Definition validate_tags (doc : SerTaskDoc) : result unit IoError :=
  validate_tasks (doc_templates doc) (doc_tasks doc).

End SerTaskDoc.

(* ===================================================================== *)
(** ** state.rs: [State::save] *)
(* ===================================================================== *)

Module Save.

Section SaveFile.
(** The file system, and [OpenOptions::new().create(true).truncate(true)
    .write(true).open(path)?.write_all(data)]: the outcome and the file
    system it leaves behind, also on failure. *)
Variable FS : Type.
Variable write_file : string -> string -> FS -> result unit IoError * FS.

(** [State::save_state]: [to_json(&state)?] then the write. *)
Definition save_state {T : Type} (to_json : T -> result string IoError) (path : string)
    (state : T) (fs : FS) : result unit IoError * FS :=
  match to_json state with
  | Err e => (Err e, fs)
  | Ok serialized => write_file path serialized fs
  end.

(** [State::save] on the pair [self.to_serde()] returns: the program
    state first, then the task state. *)
Definition save {P T : Type} (prog_to_json : P -> result string IoError)
    (task_to_json : T -> result string IoError) (prog_path task_path : string)
    (prog_state : P) (task_state : T) (fs : FS) : result unit IoError * FS :=
  match save_state prog_to_json prog_path prog_state fs with
  | (Err e, fs1) => (Err e, fs1)
  | (Ok _, fs1) =>
      match save_state task_to_json task_path task_state fs1 with
      | (Err e, fs2) => (Err e, fs2)
      | (Ok _, fs2) => (Ok tt, fs2)
      end
  end.

End SaveFile.
End Save.

(* ===================================================================== *)
(** ** term_renderer.rs: window offset and centred titles *)
(* ===================================================================== *)

Module TermRenderer.

(** [usize] arithmetic as a debug build checks it: an overflow or
    underflow panics ([None]). *)
Definition usize_bound : N := 2 ^ 64.

Definition usize_sub (a b : N) : option N :=
  if N.leb b a then Some (a - b)%N else None.

Definition usize_add (a b : N) : option N :=
  if N.ltb (a + b) usize_bound then Some (a + b)%N else None.

(** [sanitize_offset] *)
Definition sanitize_offset (offset selection limit : N) : option N :=
  if N.leb selection offset then Some selection
  else
    l1 ← usize_sub limit 1;
    last ← usize_add offset l1;
    if N.ltb last selection then usize_sub selection l1
    else Some offset.

(** A string as its bytes. *)
Definition bytes (s : string) : list Ascii.ascii := String.list_ascii_of_string s.

(** [str::is_char_boundary]: not a UTF-8 continuation byte. *)
Definition is_char_boundary (s : list Ascii.ascii) (i : nat) : bool :=
  match s !! i with
  | None => Nat.eqb i (length s)
  | Some b => negb (N.eqb (N.shiftr (Ascii.N_of_ascii b) 6) 2)
  end.

(** [String::replace_range(start..len, with)]; panics when [start] is
    not a char boundary. *)
Definition replace_range_to_end (s : list Ascii.ascii) (start : nat) (w : list Ascii.ascii)
    : option (list Ascii.ascii) :=
  if is_char_boundary s start then Some (take start s ++ w) else None.

(** [align_center] *)
Definition align_center (s : list Ascii.ascii) (width : nat) : option (list Ascii.ascii) :=
  let length := List.length s in
  if Nat.ltb width length then
    if Nat.leb 3 width then replace_range_to_end s (width - 3)%nat (bytes "...")
    else None
  else if Nat.ltb length width then
    let pad_right := Nat.div (width - length)%nat 2 in
    let pad_left := (width - length - pad_right)%nat in
    Some (List.repeat (Ascii.ascii_of_nat 32) pad_right ++ s ++ List.repeat (Ascii.ascii_of_nat 32) pad_left)
  else Some s.

End TermRenderer.

(* ===================================================================== *)
(** ** A concrete file system for [save] *)
(* ===================================================================== *)

Module MemFs.

(** Files by path; writing to "ro" fails before the file is opened. *)
Definition FS : Type := gmap string string.

Definition write_file (p d : string) (fs : FS) : result unit IoError * FS :=
  if String.eqb p "ro" then (Err (mkIoError PermissionDenied "denied"), fs)
  else (Ok tt, <[p := d]> fs).

Definition read_file (p : string) (fs : FS) : option string := fs !! p.

End MemFs.

(* ===================================================================== *)
(** ** Concrete inputs: a small file system and registry *)
(* ===================================================================== *)

Module Fixtures.
Import Tags SerTasks Tasks State.

(** Files are named by their contents; "missing" does not exist and
    "denied" cannot be opened. *)
Definition open_file (path : string) : result string IoError :=
  if String.eqb path "missing" then Err (mkIoError NotFound "No such file or directory")
  else if String.eqb path "denied" then Err (mkIoError PermissionDenied "Permission denied")
  else Ok path.

Definition io_of_json (j : string) : IoError := mkIoError InvalidData j.

Definition parse_prog (f : string) : result (SerProgState unit) string :=
  if String.eqb f "{}" then Ok (mkSerProgState unit []) else Err "expected value".

Definition parse_task (f : string) : result SerTaskState string :=
  if String.eqb f "{}" then Ok default_task_state else Err "expected value".

Definition query_with_serde (q : unit) (templates : Templates) (map : TagMap)
    : result Query IoError := Ok (mkQuery "persisted" []).

(** A registry of the serialized templates, each id resolving to itself;
    the completion marker has id 0. *)
Definition templates_with_serde (l : list SerTemplate) : Templates * TagMap :=
  (mkTemplates (List.map (fun t => mkTemplate (ser_tmpl_id t) (ser_tmpl_name t)) l) 0,
   list_to_map (List.map (fun t => (ser_tmpl_id t, ser_tmpl_id t)) l)).

Definition templates_to_serde (ts : Templates) : list SerTemplate :=
  List.map (fun t => mkSerTemplate (tmpl_id t) (tmpl_name t)) (templates ts).

Definition registry : Templates := mkTemplates [mkTemplate 0 "complete"; mkTemplate 7 "work"] 0.

Definition registry_map : TagMap := {[0%N := 0%N; 7%N := 7%N]}.

Definition task_a : Task := mkTask 0 "a" {[7%N := mkTag 7]} registry.
Definition task_b : Task := mkTask 1 "b" {[0%N := mkTag 0; 7%N := mkTag 7]} registry.
Definition task_c : Task := mkTask 2 "c" ∅ registry.

Definition three_tasks : Tasks := mkTasks registry [task_a; task_b; task_c].

End Fixtures.

(* ===================================================================== *)
(** * Properties of the selection *)
(* ===================================================================== *)

Module SelectionFacts.
Import Selection.

(** [modulo x y] is the mathematical modulo for a positive [y]. *)
Lemma modulo_pos (x y : Z) : 0 < y -> modulo x y = Some (x mod y).
Proof.
  intros Hy. unfold modulo, rust_rem.
  destruct (Z.eqb_spec y 0) as [E | _]; [lia |]. simpl.
  destruct (Z.eqb_spec y 0) as [E | _]; [lia |].
  pose proof (Z.rem_bound_abs x y ltac:(lia)) as Hb.
  rewrite Z.rem_mod_nonneg by lia.
  rewrite (Z.rem_eq x y) by lia.
  f_equal.
  replace (x - y * (x ÷ y) + y) with (x + (1 - x ÷ y) * y) by ring.
  apply Z.mod_add. lia.
Qed.

(** A remainder by zero panics. *)
Lemma modulo_zero (x : Z) : modulo x 0 = None.
Proof. reflexivity. Qed.

Section Facts.
Context {T : Type} `{EqDecision T}.

Lemma advance_n_fields (k : nat) (st : SelectionState T) :
  advance_n k st =
  mkState (selection st) (reversed st)
    (advanced st + (if reversed st then - Z.of_nat k else Z.of_nat k))
    (total st + (if reversed st then - Z.of_nat k else Z.of_nat k)).
Proof.
  revert st. induction k as [|k IH]; intros st; simpl.
  - destruct st as [sel r a t]; simpl. destruct r; f_equal; lia.
  - rewrite IH. unfold advance; simpl. destruct (reversed st); f_equal; lia.
Qed.

Lemma position_none (p : T -> bool) (l : list T) :
  (forall x, In x l -> p x = false) -> position p l = None.
Proof.
  induction l as [|x l IH]; intros Hl; simpl; [done |].
  rewrite Hl by (left; done). rewrite IH; [done |].
  intros y Hy. apply Hl. by right.
Qed.

Lemma normalize_spec (st : SelectionState T) (l : list T) (s : nat) :
  l <> [] -> index (selection st) l = Some s ->
  normalize st l =
  Some (Z.to_nat ((Z.of_nat s + advanced st) mod Z.of_nat (length l)),
        mkState (Normalized (Z.to_nat ((Z.of_nat s + advanced st) mod Z.of_nat (length l))))
          (reversed st) 0 (total st)).
Proof.
  intros Hl Hs. unfold normalize. rewrite Hs. simpl.
  rewrite modulo_pos; [done |].
  destruct l; [done | simpl; lia].
Qed.

(** C1: over a non-empty sequence of [N] elements, after [k] forward
    [advance] calls since the last [normalize] (so [advanced] was 0), with
    an anchor resolving to the start index [s], [normalize] returns
    [(s + k) mod N], which is non-negative and below [N], stores it as
    [Normalized], and zeroes [advanced]. *)
Theorem normalize_forward_advances (st : SelectionState T) (l : list T) (s k : nat) :
  l <> [] -> reversed st = false -> advanced st = 0 ->
  index (selection st) l = Some s ->
  exists idx st',
    normalize (advance_n k st) l = Some (idx, st') /\
    Z.of_nat idx = (Z.of_nat s + Z.of_nat k) mod Z.of_nat (length l) /\
    0 <= (Z.of_nat s + Z.of_nat k) mod Z.of_nat (length l) /\
    (idx < length l)%nat /\
    selection st' = Normalized idx /\
    advanced st' = 0.
Proof.
  intros Hl Hr Ha Hs.
  assert (HN : 0 < Z.of_nat (length l)) by (destruct l; [done | simpl; lia]).
  rewrite (normalize_spec _ l s); [| done |].
  2:{ rewrite advance_n_fields. exact Hs. }
  rewrite advance_n_fields, Hr, Ha. simpl. rewrite Z.add_0_l.
  pose proof (Z.mod_pos_bound (Z.of_nat s + Z.of_nat k) (Z.of_nat (length l)) HN).
  eexists _, _. split; [reflexivity |].
  rewrite Z2Nat.id by lia.
  repeat split; try lia.
Qed.

(** C3: from the start index [s] of a non-empty sequence, [k] forward
    advances, [reverse(true)] and [k] further advances cancel:
    [normalize] returns [s]. *)
Theorem reverse_cancels_advances (st : SelectionState T) (l : list T) (s k : nat) :
  (s < length l)%nat -> reversed st = false -> advanced st = 0 ->
  index (selection st) l = Some s ->
  exists st',
    normalize (advance_n k (reverse (advance_n k st) true)) l = Some (s, st').
Proof.
  intros Hlt Hr Ha Hs.
  assert (Hl : l <> []) by (destruct l; [simpl in Hlt; lia | done]).
  rewrite (normalize_spec _ l s Hl).
  2:{ rewrite !advance_n_fields. exact Hs. }
  rewrite !advance_n_fields. simpl. rewrite Hr, Ha.
  replace (Z.of_nat s + (0 + Z.of_nat k + - Z.of_nat k)) with (Z.of_nat s) by lia.
  rewrite Z.mod_small by lia. rewrite Nat2Z.id. eauto.
Qed.

Lemma run_total (ops : list Op) (st st' : SelectionState T) :
  forallb (fun o => negb (is_reset o)) ops = true ->
  run ops st = Some st' ->
  Z.abs (total st' - total st) <= Z.of_nat (count_advances ops).
Proof.
  unfold count_advances.
  revert st. induction ops as [|o ops IH]; intros st Hops Hrun; simpl in *.
  - injection Hrun as <-. lia.
  - apply andb_prop in Hops as [Ho Hops].
    destruct (step o st) as [st1|] eqn:Hstep; simpl in Hrun; [| done].
    specialize (IH st1 Hops Hrun).
    destruct o; simpl in Hstep.
    + injection Hstep as <-. simpl in *. unfold advance in IH; simpl in IH.
      destruct (reversed st); simpl in *; lia.
    + injection Hstep as <-. simpl in *. lia.
    + unfold normalize in Hstep.
      destruct (index (selection st) iter); simpl in Hstep; [| done].
      destruct (modulo _ _); simpl in Hstep; [| done].
      injection Hstep as <-. simpl in *. lia.
    + done.
Qed.

(** C2: [has_cycled(N)] holds iff [|total| > N]; [reset_cycled] zeroes
    [total] and nothing else, after which [has_cycled(N)] is false, and
    stays false over any later operations (no further reset) until more
    than [N] advances have been made. *)
Theorem has_cycled_threshold (N : nat) (st : SelectionState T) :
  (has_cycled st N = true <-> Z.of_nat N < Z.abs (total st)) /\
  reset_cycled st = mkState (selection st) (reversed st) (advanced st) 0 /\
  has_cycled (reset_cycled st) N = false /\
  (forall (ops : list Op) (st' : SelectionState T),
     forallb (fun o => negb (is_reset o)) ops = true ->
     run ops (reset_cycled st) = Some st' ->
     has_cycled st' N = true -> (N < count_advances ops)%nat).
Proof.
  split; [| split; [| split]].
  - unfold has_cycled. apply Z.ltb_lt.
  - reflexivity.
  - unfold has_cycled. simpl. apply Z.ltb_ge. lia.
  - intros ops st' Hops Hrun Hc.
    pose proof (run_total ops _ _ Hops Hrun) as Hb. simpl in Hb.
    unfold has_cycled in Hc. apply Z.ltb_lt in Hc. lia.
Qed.

(** C10: [normalize] panics over an empty sequence, whatever the state,
    and when its [Start] key is not an element of the sequence. *)
Theorem normalize_partial :
  (forall (st : SelectionState T), normalize st [] = None) /\
  (forall (st : SelectionState T) (key : T) (l : list T),
     selection st = Start key -> ~ In key l -> normalize st l = None).
Proof.
  split.
  - intros [sel r a t]. unfold normalize. simpl.
    destruct sel; simpl; [done |].
    reflexivity.
  - intros st key l Hsel Hin. unfold normalize. rewrite Hsel. simpl.
    rewrite position_none; [done |].
    intros x Hx. apply bool_decide_eq_false. intros ->. done.
Qed.

End Facts.
End SelectionFacts.

(* ===================================================================== *)
(** * Properties of tasks and the task collection *)
(* ===================================================================== *)

Module TaskFacts.
Import Tags SerTasks Tasks.

(** Every tag of a task is keyed by its own id, as [collect_tags] and
    [resolve_tags] build them. *)
Definition tags_keyed (m : gmap N Tag) : Prop :=
  forall k tg, m !! k = Some tg -> tag_id tg = k.

(** C6: [toggle_complete] removes the completion tag when present and
    inserts it when absent (XOR on the tag set), flips [is_complete],
    keeps the other fields, and applied twice restores the tag set and
    the completion status. *)
Theorem toggle_complete_self_inverse (t : Task) :
  tags_keyed (tags t) ->
  tags (toggle_complete t) =
    (if is_complete t
     then delete (tag_id (complete_tag (task_templates t))) (tags t)
     else <[tag_id (complete_tag (task_templates t)) :=
              instantiate (task_templates t) (tag_id (complete_tag (task_templates t)))]>
            (tags t)) /\
  is_complete (toggle_complete t) = negb (is_complete t) /\
  (id (toggle_complete t), summary (toggle_complete t), task_templates (toggle_complete t))
    = (id t, summary t, task_templates t) /\
  tags (toggle_complete (toggle_complete t)) = tags t /\
  is_complete (toggle_complete (toggle_complete t)) = is_complete t.
Proof.
  intros Hkeyed.
  destruct t as [tid summ tg tmpl].
  unfold toggle_complete, is_complete, complete_tag, instantiate; simpl in *.
  set (i := complete_id tmpl).
  destruct (tg !! i) as [x|] eqn:Hx.
  - assert (x = mkTag i) as ->.
    { destruct x as [xi]. apply Hkeyed in Hx. simpl in Hx. subst. reflexivity. }
    rewrite lookup_delete_eq, delete_delete_eq, insert_delete_eq, insert_id by done.
    rewrite Hx. simpl.
    done.
  - rewrite lookup_insert_eq, delete_insert_eq, (delete_id tg) by done.
    rewrite !(delete_id tg), Hx by done.
    rewrite (bool_decide_eq_false_2 (is_Some None)) by (intros [? ?]; done).
    rewrite (bool_decide_eq_true_2 (is_Some (Some _))) by eauto.
    done.
Qed.

(** C7: [add] appends exactly one task at the end (the earlier tasks
    unchanged and in order), returns that task's id, and iteration
    yields the tasks in insertion order; with a counter above every
    existing id, the returned id is fresh. *)
Theorem add_appends (ts : Tasks) (s : string) (tgs : list Tag) (next : Id) :
  exists t,
    add ts s tgs next = ((id t, mkTasks (tasks_templates ts) (tasks ts ++ [t])), S next) /\
    iter (snd (fst (add ts s tgs next))) = iter ts ++ [t] /\
    id t = next /\ summary t = s /\ tags t = collect_tags tgs /\
    ((forall x, In x (tasks ts) -> (id x < next)%nat) ->
     forall x, In x (tasks ts) -> id x <> id t).
Proof.
  eexists. split; [reflexivity |]. simpl.
  repeat split; try reflexivity.
  intros Hlt x Hx. specialize (Hlt x Hx). lia.
Qed.

Lemma position_split {A} (p : A -> bool) (l : list A) (n : nat) :
  position p l = Some n ->
  exists l1 x l2, l = l1 ++ x :: l2 /\ length l1 = n /\ p x = true /\
                  Forall (fun y => p y = false) l1.
Proof.
  revert n. induction l as [|a l IH]; intros n H; simpl in H; [done |].
  destruct (p a) eqn:Ha.
  - injection H as <-. exists [], a, l. auto.
  - destruct (position p l) as [m|] eqn:Hm; simpl in H; [| done].
    injection H as <-. destruct (IH m eq_refl) as (l1 & x & l2 & -> & <- & Hx & Hl1).
    exists (a :: l1), x, l2. simpl. auto.
Qed.

Lemma position_some {A} (p : A -> bool) (l : list A) (x : A) :
  In x l -> p x = true -> exists n, position p l = Some n.
Proof.
  induction l as [|a l IH]; intros Hin Hx; simpl; [done |].
  destruct (p a) eqn:Ha; [eauto |].
  destruct Hin as [-> | Hin]; [congruence |].
  destruct (IH Hin Hx) as [n ->]. simpl. eauto.
Qed.

Lemma position_absent {A} (p : A -> bool) (l : list A) :
  (forall x, In x l -> p x = false) -> position p l = None.
Proof.
  induction l as [|a l IH]; intros Hl; simpl; [done |].
  rewrite Hl by (left; done). rewrite IH; [done |].
  intros y Hy. apply Hl. by right.
Qed.

(** C8: [remove] and [update] find their target by a linear scan: when
    a task with the id is present, the first one ([ids] are unique by
    construction) is removed, or replaced wholesale, and the other tasks
    stay in order; when none is present, both panic ([None]). *)
Theorem remove_update_by_scan :
  (forall (ts : Tasks) (i : Id),
     (exists t, In t (tasks ts) /\ id t = i) ->
     exists l1 t l2,
       tasks ts = l1 ++ t :: l2 /\ id t = i /\ Forall (fun y => id y <> i) l1 /\
       remove ts i = Some (mkTasks (tasks_templates ts) (l1 ++ l2))) /\
  (forall (ts : Tasks) (task : Task),
     (exists t, In t (tasks ts) /\ id t = id task) ->
     exists l1 t l2,
       tasks ts = l1 ++ t :: l2 /\ id t = id task /\ Forall (fun y => id y <> id task) l1 /\
       update ts task = Some (mkTasks (tasks_templates ts) (l1 ++ task :: l2))) /\
  (forall (ts : Tasks) (i : Id),
     (forall t, In t (tasks ts) -> id t <> i) -> remove ts i = None) /\
  (forall (ts : Tasks) (task : Task),
     (forall t, In t (tasks ts) -> id t <> id task) -> update ts task = None).
Proof.
  split; [| split; [| split]].
  - intros ts i [t [Hin Hid]]. unfold remove.
    destruct (position_some (fun x => Nat.eqb (id x) i) _ t Hin) as [n Hn].
    { by apply Nat.eqb_eq. }
    rewrite Hn. simpl.
    destruct (position_split _ _ _ Hn) as (l1 & x & l2 & Hl & Hlen & Hx & Hl1).
    exists l1, x, l2. rewrite Hl, <- Hlen, delete_middle.
    split; [reflexivity |]. split; [by apply Nat.eqb_eq |]. split; [| reflexivity].
    eapply Forall_impl; [exact Hl1 |]. intros y Hy. by apply Nat.eqb_neq.
  - intros ts task [t [Hin Hid]]. unfold update.
    destruct (position_some (fun x => Nat.eqb (id x) (id task)) _ t Hin) as [n Hn].
    { by apply Nat.eqb_eq. }
    rewrite Hn. simpl.
    destruct (position_split _ _ _ Hn) as (l1 & x & l2 & Hl & Hlen & Hx & Hl1).
    exists l1, x, l2. rewrite Hl, <- Hlen.
    split; [reflexivity |]. split; [by apply Nat.eqb_eq |]. split.
    + eapply Forall_impl; [exact Hl1 |]. intros y Hy. by apply Nat.eqb_neq.
    + rewrite <- (Nat.add_0_r (length l1)), insert_app_r. reflexivity.
  - intros ts i Hl. unfold remove. rewrite position_absent; [done |].
    intros x Hx. apply Nat.eqb_neq. auto.
  - intros ts task Hl. unfold update. rewrite position_absent; [done |].
    intros x Hx. apply Nat.eqb_neq. auto.
Qed.

(** A task's tag set is valid against a validation map when every tag
    is keyed by its id and the map resolves that id to itself (the id
    is registered in the Template registry). *)
Definition valid_tags (map : TagMap) (t : Task) : Prop :=
  tags_keyed (tags t) /\ forall k tg, tags t !! k = Some tg -> map !! k = Some k.

Lemma resolve_tags_ok (templates : Templates) (map : TagMap) (acc : gmap N Tag)
    (l : list SerTag) :
  (forall x, In x l -> map !! ser_tag_id x = Some (ser_tag_id x)) ->
  resolve_tags templates map acc l =
  Ok (foldl (fun m x => <[ser_tag_id x := mkTag (ser_tag_id x)]> m) acc l).
Proof.
  revert acc. induction l as [|x l IH]; intros acc Hl; simpl; [done |].
  rewrite Hl by (left; done). apply IH. intros y Hy. apply Hl. by right.
Qed.

Lemma foldl_insert_lookup (acc : gmap N Tag) (l : list SerTag) (k : N) :
  (In k (List.map ser_tag_id l) ->
   foldl (fun m x => <[ser_tag_id x := mkTag (ser_tag_id x)]> m) acc l !! k = Some (mkTag k)) /\
  (~ In k (List.map ser_tag_id l) ->
   foldl (fun m x => <[ser_tag_id x := mkTag (ser_tag_id x)]> m) acc l !! k = acc !! k).
Proof.
  revert acc. induction l as [|x l IH]; intros acc; simpl; [split; [done | auto] |].
  destruct (IH (<[ser_tag_id x := mkTag (ser_tag_id x)]> acc)) as [H1 H2].
  split.
  - intros Hk. destruct (in_dec N.eq_dec k (List.map ser_tag_id l)) as [Hin | Hnin].
    + auto.
    + rewrite H2 by done. destruct Hk as [<- | Hk]; [| done].
      apply lookup_insert_eq.
  - intros Hk. rewrite H2 by tauto. apply lookup_insert_ne. intros Heq. apply Hk. left. exact Heq.
Qed.

Lemma serde_tag_ids (m : gmap N Tag) (k : N) :
  tags_keyed m ->
  In k (List.map ser_tag_id (List.map (fun p => tag_to_serde p.2) (btree_iter m))) <->
  is_Some (m !! k).
Proof.
  intros Hkeyed. rewrite List.map_map. rewrite in_map_iff. split.
  - intros [[k' tg] [Hk Hin]]. simpl in Hk.
    unfold btree_iter in Hin.
    apply (Permutation_in _ (merge_sort_Permutation key_le _)) in Hin.
    apply list_elem_of_In, elem_of_map_to_list in Hin.
    apply Hkeyed in Hin as Hid. subst. exists tg. congruence.
  - intros [tg Htg]. exists (k, tg). simpl. split; [by apply Hkeyed |].
    unfold btree_iter.
    apply (Permutation_in _ (Permutation_sym (merge_sort_Permutation key_le _))).
    apply list_elem_of_In, elem_of_map_to_list. done.
Qed.

Lemma task_serde_roundtrip (t : Task) (templates : Templates) (map : TagMap) (next : Id) :
  valid_tags map t ->
  task_with_serde (task_to_serde t) templates map next =
  Ok (mkTask next (summary t) (tags t) templates, S next).
Proof.
  intros [Hkeyed Hmap]. unfold task_with_serde. simpl.
  rewrite resolve_tags_ok.
  2:{ intros x Hx. apply (in_map ser_tag_id) in Hx.
      apply serde_tag_ids in Hx as [tg Htg]; [| done]. eauto. }
  simpl. do 3 f_equal. apply map_eq. intros k.
  destruct (foldl_insert_lookup ∅ (List.map (fun p => tag_to_serde p.2) (btree_iter (tags t))) k)
    as [H1 H2].
  destruct (tags t !! k) as [tg|] eqn:Htg.
  - rewrite H1; [| apply serde_tag_ids; eauto].
    apply Hkeyed in Htg as Hid. destruct tg. simpl in *. subst. done.
  - rewrite H2; [by rewrite lookup_empty |].
    rewrite serde_tag_ids by done. rewrite Htg. intros [? ?]; done.
Qed.

Lemma tasks_loop_roundtrip (l : list Task) (templates : Templates) (map : TagMap)
    (acc : list Task) (next : Id) :
  Forall (valid_tags map) l ->
  exists l' next',
    tasks_with_serde_loop (List.map task_to_serde l) templates map acc next = Ok (acc ++ l', next') /\
    Forall2 (fun a b => summary a = summary b /\ tags a = tags b) l l'.
Proof.
  revert acc next. induction l as [|t l IH]; intros acc next Hl; simpl.
  - exists [], next. rewrite app_nil_r. auto.
  - apply Forall_cons in Hl as [Ht Hl].
    rewrite task_serde_roundtrip by done. simpl.
    destruct (IH (acc ++ [mkTask next (summary t) (tags t) templates]) (S next) Hl)
      as (l' & next' & Hrun & Hall).
    exists (mkTask next (summary t) (tags t) templates :: l'), next'.
    rewrite Hrun, <- app_assoc. simpl. auto.
Qed.

(** C4: serializing a collection with [to_serde] and rebuilding it with
    [with_serde] against the same registry and a validation map that
    resolves every tag of every task yields the same number of tasks in
    the same order, each with an equal summary and an equal tag set
    (task ids are drawn afresh). *)
Theorem tasks_serde_roundtrip (ts : Tasks) (map : TagMap) (next : Id) :
  Forall (valid_tags map) (tasks ts) ->
  exists ts' next',
    tasks_with_serde (tasks_to_serde ts) (tasks_templates ts) map next = Ok (ts', next') /\
    tasks_templates ts' = tasks_templates ts /\
    Forall2 (fun a b => summary a = summary b /\ tags a = tags b) (tasks ts) (tasks ts').
Proof.
  intros Hall. unfold tasks_with_serde, tasks_to_serde.
  destruct (tasks_loop_roundtrip (tasks ts) (tasks_templates ts) map [] next Hall)
    as (l' & next' & Hrun & Hl').
  rewrite Hrun. simpl. eexists _, _. split; [reflexivity |]. simpl. auto.
Qed.

End TaskFacts.

(* ===================================================================== *)
(** * Properties of loading a state *)
(* ===================================================================== *)

Module StateFacts.
Import Tags SerTasks Tasks State.

Lemma prefix_refl (s : string) : String.prefix s s = true.
Proof.
  induction s as [|a s IH]; simpl; [done |].
  destruct (Ascii.ascii_dec a a); [done | congruence].
Qed.

Lemma contains_suffix (p s : string) : Fmt.contains (p ++ s) s = true.
Proof.
  assert (Hunf : forall s0 sub, Fmt.contains s0 sub =
            String.prefix sub s0 ||
            match s0 with EmptyString => false | String _ s' => Fmt.contains s' sub end)
    by (intros [|? ?] ?; reflexivity).
  induction p as [|a p IH].
  - rewrite Hunf. simpl. rewrite prefix_refl. done.
  - rewrite Hunf. simpl. rewrite IH. apply orb_true_r.
Qed.

(** A serialized tag whose id the validation map resolves. *)
Definition resolvable (map : TagMap) (x : SerTag) : Prop := is_Some (map !! ser_tag_id x).

Lemma resolve_tags_first_err (templates : Templates) (map : TagMap) (acc : gmap N Tag)
    (tpre : list SerTag) (tag : SerTag) (tpost : list SerTag) :
  Forall (resolvable map) tpre -> map !! ser_tag_id tag = None ->
  resolve_tags templates map acc (tpre ++ tag :: tpost) = Err (invalid_tag_error (ser_tag_id tag)).
Proof.
  revert acc. induction tpre as [|x tpre IH]; intros acc Hpre Htag; simpl.
  - by rewrite Htag.
  - apply Forall_cons in Hpre as [[i Hi] Hpre]. rewrite Hi. auto.
Qed.

Lemma resolve_tags_all_ok (templates : Templates) (map : TagMap) (acc : gmap N Tag)
    (l : list SerTag) :
  Forall (resolvable map) l -> exists r, resolve_tags templates map acc l = Ok r.
Proof.
  revert acc. induction l as [|x l IH]; intros acc Hl; simpl; [eauto |].
  apply Forall_cons in Hl as [[i Hi] Hl]. rewrite Hi. auto.
Qed.

Lemma loop_first_err (templates : Templates) (map : TagMap) (pre : list SerTask)
    (t : SerTask) (post : list SerTask) (tpre : list SerTag) (tag : SerTag)
    (tpost : list SerTag) (acc : list Task) (next : Id) :
  Forall (fun u => Forall (resolvable map) (ser_tags u)) pre ->
  ser_tags t = tpre ++ tag :: tpost -> Forall (resolvable map) tpre ->
  map !! ser_tag_id tag = None ->
  tasks_with_serde_loop (pre ++ t :: post) templates map acc next =
  Err (invalid_tag_error (ser_tag_id tag)).
Proof.
  intros Hpre Ht Htpre Htag. revert acc next.
  induction pre as [|u pre IH]; intros acc next; simpl.
  - unfold task_with_serde. rewrite Ht, resolve_tags_first_err by done. done.
  - apply Forall_cons in Hpre as [Hu Hpre].
    unfold task_with_serde.
    destruct (resolve_tags_all_ok templates map ∅ (ser_tags u) Hu) as [r ->].
    simpl. auto.
Qed.

Lemma first_unresolved_tag (map : TagMap) (l : list SerTag) :
  (exists tag, In tag l /\ map !! ser_tag_id tag = None) ->
  exists tpre tag tpost, l = tpre ++ tag :: tpost /\ Forall (resolvable map) tpre /\
                         map !! ser_tag_id tag = None.
Proof.
  induction l as [|x l IH]; intros [tag [Hin Htag]]; [done |].
  destruct (map !! ser_tag_id x) as [i|] eqn:Hx.
  - destruct Hin as [-> | Hin]; [congruence |].
    destruct (IH (ex_intro _ tag (conj Hin Htag))) as (tpre & tag' & tpost & -> & Hpre & Htag').
    exists (x :: tpre), tag', tpost. split; [done |]. split; [| done].
    constructor; [by exists i | done].
  - exists [], x, l. auto.
Qed.

Lemma first_unresolved_task (map : TagMap) (l : list SerTask) :
  (exists t tag, In t l /\ In tag (ser_tags t) /\ map !! ser_tag_id tag = None) ->
  exists pre t post, l = pre ++ t :: post /\
    Forall (fun u => Forall (resolvable map) (ser_tags u)) pre /\
    (exists tag, In tag (ser_tags t) /\ map !! ser_tag_id tag = None).
Proof.
  induction l as [|u l IH]; intros (t & tag & Hin & Htin & Htag); [done |].
  set (unresolved := fun x : SerTag =>
         match map !! ser_tag_id x with None => true | Some _ => false end).
  destruct (existsb unresolved (ser_tags u)) eqn:Hu.
  - apply existsb_exists in Hu as [x [Hx Hxu]].
    exists [], u, l. split; [done |]. split; [done |].
    exists x. split; [done |]. unfold unresolved in Hxu.
    destruct (map !! ser_tag_id x); congruence.
  - assert (Hall : Forall (resolvable map) (ser_tags u)).
    { apply Forall_forall. intros x Hx.
      destruct (map !! ser_tag_id x) as [i|] eqn:Hxi; [by exists i |].
      assert (existsb unresolved (ser_tags u) = true) as Hc.
      { apply existsb_exists. exists x. unfold unresolved. rewrite Hxi. split; [by apply list_elem_of_In | reflexivity]. }
      congruence. }
    destruct Hin as [-> | Hin].
    + rewrite Forall_forall in Hall.
      destruct (Hall tag (proj2 (list_elem_of_In _ _) Htin)). congruence.
    + destruct (IH (ex_intro _ t (ex_intro _ tag (conj Hin (conj Htin Htag)))))
        as (pre & t' & post & -> & Hpre & Ht').
      exists (u :: pre), t', post. auto.
Qed.

Lemma queries_with_serde_prefix {SerQuery : Type}
    (query_with_serde : SerQuery -> Templates -> TagMap -> result Query IoError)
    (l : list SerQuery) (templates : Templates) (map : TagMap) (acc qs : list Query) :
  queries_with_serde SerQuery query_with_serde l templates map acc = Ok qs ->
  exists rest, qs = acc ++ rest.
Proof.
  revert acc. induction l as [|q l IH]; intros acc H; simpl in H.
  - injection H as <-. exists []. by rewrite app_nil_r.
  - destruct (query_with_serde q templates map) as [q'|e]; simpl in H; [| done].
    destruct (IH _ H) as [rest ->]. exists (q' :: rest). by rewrite <- app_assoc.
Qed.

Section Loading.
Variable SerQuery : Type.
Variable query_with_serde : SerQuery -> Templates -> TagMap -> result Query IoError.
Variable query_to_serde : Query -> SerQuery.
Variable templates_with_serde : list SerTemplate -> Templates * TagMap.
Variable templates_to_serde : Templates -> list SerTemplate.
Variable File : Type.
Variable open_file : string -> result File IoError.
Variable JsonError : Type.
Variable io_of_json : JsonError -> IoError.
Variable parse_prog : File -> result (SerProgState SerQuery) JsonError.
Variable parse_task : File -> result SerTaskState JsonError.

(** C5 (as the code does it): when a task of the serialized task state
    carries a tag id that the validation map does not resolve, building
    the collection, and so [State::with_serde], fails with the error
    "Encountered invalid tag Id <i>" and yields no collection and no
    State, where [i] is the FIRST unresolved tag id met (tasks in order,
    then tags in order); the message contains [i]. *)
Theorem invalid_tag_aborts_load (prog_state : SerProgState SerQuery) (prog_path : string)
    (task_state : SerTaskState) (task_path : string) (next : Id)
    (templates : Templates) (map : TagMap) :
  templates_with_serde (ser_templates task_state) = (templates, map) ->
  (exists t tag, In t (ser_tasks task_state) /\ In tag (ser_tags t) /\
                 map !! ser_tag_id tag = None) ->
  exists pre t post tpre tag tpost,
    ser_tasks task_state = pre ++ t :: post /\ ser_tags t = tpre ++ tag :: tpost /\
    Forall (fun u => Forall (resolvable map) (ser_tags u)) pre /\
    Forall (resolvable map) tpre /\ map !! ser_tag_id tag = None /\
    tasks_with_serde (ser_tasks task_state) templates map next
      = Err (invalid_tag_error (ser_tag_id tag)) /\
    with_serde SerQuery query_with_serde templates_with_serde
        prog_state prog_path task_state task_path next
      = Err (invalid_tag_error (ser_tag_id tag)) /\
    Fmt.contains (io_msg (invalid_tag_error (ser_tag_id tag))) (Fmt.show_N (ser_tag_id tag))
      = true.
Proof.
  intros Htmpl Hbad.
  destruct (first_unresolved_task map _ Hbad) as (pre & t & post & Hl & Hpre & Ht).
  destruct (first_unresolved_tag map _ Ht) as (tpre & tag & tpost & Htags & Htpre & Htag).
  assert (Herr : tasks_with_serde (ser_tasks task_state) templates map next
                 = Err (invalid_tag_error (ser_tag_id tag))).
  { unfold tasks_with_serde. rewrite Hl.
    rewrite (loop_first_err templates map pre t post tpre tag tpost) by done. done. }
  exists pre, t, post, tpre, tag, tpost.
  do 6 (split; [done |]). split.
  - unfold with_serde. rewrite Htmpl, Herr. done.
  - apply contains_suffix.
Qed.

(** C9: [load_state] turns a missing file (NotFound) into the default
    document, propagates any other open error unchanged and a parse
    error as the [io::Error] that [?] converts it to; with both files
    missing, [State::new] yields no tasks and exactly one query, the
    implicit "all" query; and every State that [with_serde] builds has
    the "all" query first, which [to_serde] never persists. *)
Theorem load_missing_files_default :
  (forall (T : Type) (dflt : T) (rd : File -> result T JsonError) path e,
     open_file path = Err e -> io_kind e = NotFound ->
     load_state File open_file JsonError io_of_json dflt rd path = Ok dflt) /\
  (forall (T : Type) (dflt : T) (rd : File -> result T JsonError) path e,
     open_file path = Err e -> io_kind e <> NotFound ->
     load_state File open_file JsonError io_of_json dflt rd path = Err e) /\
  (forall (T : Type) (dflt : T) (rd : File -> result T JsonError) path f j,
     open_file path = Ok f -> rd f = Err j ->
     load_state File open_file JsonError io_of_json dflt rd path = Err (io_of_json j)) /\
  (forall (T : Type) (dflt : T) (rd : File -> result T JsonError) path f v,
     open_file path = Ok f -> rd f = Ok v ->
     load_state File open_file JsonError io_of_json dflt rd path = Ok v) /\
  (forall prog_path task_path e1 e2 (next : Id),
     open_file prog_path = Err e1 -> io_kind e1 = NotFound ->
     open_file task_path = Err e2 -> io_kind e2 = NotFound ->
     exists st,
       new SerQuery query_with_serde templates_with_serde File open_file JsonError
         io_of_json parse_prog parse_task prog_path task_path next = Ok (st, next) /\
       tasks (st_tasks st) = [] /\ queries st = [all_query] /\
       ser_queries SerQuery (fst (to_serde SerQuery query_to_serde templates_to_serde st)) = []) /\
  (forall prog_state prog_path task_state task_path (next : Id) st next',
     with_serde SerQuery query_with_serde templates_with_serde
       prog_state prog_path task_state task_path next = Ok (st, next') ->
     exists rest, queries st = all_query :: rest /\
       ser_queries SerQuery (fst (to_serde SerQuery query_to_serde templates_to_serde st))
       = List.map query_to_serde rest).
Proof.
  split; [| split; [| split; [| split; [| split]]]].
  - intros T dflt rd path e Ho Hk. unfold load_state. rewrite Ho.
    rewrite decide_True by done. done.
  - intros T dflt rd path e Ho Hk. unfold load_state. rewrite Ho.
    rewrite decide_False by done. done.
  - intros T dflt rd path f j Ho Hr. unfold load_state. rewrite Ho, Hr. done.
  - intros T dflt rd path f v Ho Hr. unfold load_state. rewrite Ho, Hr. done.
  - intros pp tp e1 e2 next Ho1 Hk1 Ho2 Hk2. unfold new, load_state.
    rewrite Ho1, decide_True by done. simpl.
    rewrite Ho2, decide_True by done. simpl.
    unfold with_serde. simpl.
    destruct (templates_with_serde []) as [tm mp]. simpl.
    eexists. split; [reflexivity |]. simpl. auto.
  - intros ps pp ts tp next st next' H. unfold with_serde in H.
    destruct (templates_with_serde (ser_templates ts)) as [tm mp].
    destruct (tasks_with_serde (ser_tasks ts) tm mp next) as [p|e]; simpl in H; [| done].
    destruct (queries_with_serde SerQuery query_with_serde (ser_queries SerQuery ps) tm mp
                [all_query]) as [qs|e] eqn:Hq; simpl in H; [| done].
    injection H as <- <-. simpl.
    destruct (queries_with_serde_prefix _ _ _ _ _ _ Hq) as [rest ->].
    exists rest. split; reflexivity.
Qed.

End Loading.

End StateFacts.

(* ===================================================================== *)
(** * The unit tests of the sources, replayed on the model *)
(* ===================================================================== *)

(* ===================================================================== *)
(** * Further properties of the selection *)
(* ===================================================================== *)

Module SelectionMore.
Import Selection SelectionFacts.


Section More.
Context {T : Type} `{EqDecision T}.

Lemma normalize_some_inv (st : SelectionState T) (l : list T) (i : nat) (st' : SelectionState T) :
  normalize st l = Some (i, st') ->
  exists s, index (selection st) l = Some s /\ l <> [] /\
    Z.of_nat i = (Z.of_nat s + advanced st) mod Z.of_nat (length l) /\
    (i < length l)%nat /\
    st' = mkState (Normalized i) (reversed st) 0 (total st).
Proof.
  unfold normalize. intros H.
  destruct (index (selection st) l) as [s|] eqn:Hs; simpl in H; [| done].
  destruct l as [|x l'].
  - unfold modulo, rust_rem in H. simpl in H. discriminate.
  - rewrite modulo_pos in H by (simpl; lia). simpl in H.
    injection H as <- <-.
    assert (HN : 0 < Z.of_nat (length (x :: l'))) by (simpl; lia).
    pose proof (Z.mod_pos_bound (Z.of_nat s + advanced st) _ HN).
    exists s. split; [done |]. split; [done |].
    change (length (x :: l')) with (S (length l')) in *.
    rewrite Z2Nat.id by lia. split; [done |]. split; [| done].
    apply Nat2Z.inj_lt. rewrite Z2Nat.id by lia. lia.
Qed.

(** [k] advances in reverse direction, starting from the index [s] of a
    non-empty sequence of [N] elements, wrap around backwards:
    [normalize] returns [(s - k) mod N], below [N]. *)
Theorem normalize_backward_advances (st : SelectionState T) (l : list T) (s k : nat) :
  l <> [] -> reversed st = true -> advanced st = 0 ->
  index (selection st) l = Some s ->
  exists idx st',
    normalize (advance_n k st) l = Some (idx, st') /\
    Z.of_nat idx = (Z.of_nat s - Z.of_nat k) mod Z.of_nat (length l) /\
    (idx < length l)%nat.
Proof.
  intros Hl Hr Ha Hs.
  assert (HN : 0 < Z.of_nat (length l)) by (destruct l; [done | simpl; lia]).
  rewrite (normalize_spec _ l s); [| done |].
  2:{ rewrite advance_n_fields. exact Hs. }
  rewrite advance_n_fields, Hr, Ha. simpl.
  pose proof (Z.mod_pos_bound (Z.of_nat s + (0 + - Z.of_nat k)) (Z.of_nat (length l)) HN).
  eexists _, _. split; [reflexivity |].
  rewrite Z2Nat.id by lia. split.
  - f_equal; lia.
  - apply Nat2Z.inj_lt. rewrite Z2Nat.id by lia. lia.
Qed.

(** Normalizing is invisible to later moves: once [normalize] has
    succeeded on a sequence, advancing [k] times from its resulting state
    and normalizing again on the same sequence gives the same index and
    state as advancing [k] times from the original state and
    normalizing once.  With [k = 0]: a second [normalize] changes
    nothing. *)
Theorem normalize_absorbs (st st1 : SelectionState T) (l : list T) (i k : nat) :
  normalize st l = Some (i, st1) ->
  normalize (advance_n k st1) l = normalize (advance_n k st) l.
Proof.
  intros H.
  destruct (normalize_some_inv _ _ _ _ H) as (s & Hs & Hl & Hi & Hlt & ->).
  assert (HN : 0 < Z.of_nat (length l)) by (destruct l; [done | simpl; lia]).
  rewrite (normalize_spec _ l i); [| done | by rewrite advance_n_fields].
  rewrite (normalize_spec _ l s); [| done | by rewrite advance_n_fields].
  rewrite !advance_n_fields. simpl.
  replace (Z.of_nat i + (0 + (if reversed st then - Z.of_nat k else Z.of_nat k)))
    with (Z.of_nat i + (if reversed st then - Z.of_nat k else Z.of_nat k)) by lia.
  rewrite Hi.
  rewrite Z.add_mod_idemp_l by lia.
  rewrite <- Z.add_assoc. reflexivity.
Qed.


(** A [Start] anchor resolves to the first occurrence of its key: when
    the key first appears after the elements [pre], a fresh state
    normalizes to index [length pre], also when the key occurs again
    later. *)
Theorem start_first_occurrence (key : T) (pre post : list T) :
  ~ In key pre ->
  normalize (new key) (pre ++ key :: post) =
  Some (length pre, mkState (Normalized (length pre)) false 0 0).
Proof.
  intros Hpre.
  assert (Hidx : index (selection (new key)) (pre ++ key :: post) = Some (length pre)).
  { simpl. induction pre as [|x pre IH]; simpl.
    - by rewrite bool_decide_eq_true_2.
    - rewrite bool_decide_eq_false_2 by (intros ->; apply Hpre; left; done).
      rewrite IH by (intros Hin; apply Hpre; right; done). reflexivity. }
  rewrite (normalize_spec _ _ (length pre)); [| by destruct pre | done].
  simpl. rewrite Z.add_0_r, length_app. simpl.
  rewrite Z.mod_small by lia. rewrite Nat2Z.id. reflexivity.
Qed.

(** From a state with no pending advance, [k] calls of [advance] in
    one direction leave [has_advanced] true exactly when [k > 0]. *)
Theorem has_advanced_after (st : SelectionState T) (k : nat) :
  advanced st = 0 ->
  has_advanced (advance_n k st) = negb (Nat.eqb k 0).
Proof.
  intros Ha. rewrite advance_n_fields. unfold has_advanced. simpl. rewrite Ha.
  destruct k as [|k]; destruct (reversed st); simpl; reflexivity.
Qed.

End More.
End SelectionMore.

(* ===================================================================== *)
(** * Further properties of tasks *)
(* ===================================================================== *)

Module TaskMore.
Import Tags SerTasks Tasks TaskFacts TaskEq.

#[local] Instance key_le_total : Total key_le.
Proof. intros p q. unfold key_le. lia. Qed.

#[local] Instance key_le_trans : Transitive key_le.
Proof. intros p q r. unfold key_le. lia. Qed.

Lemma btree_iter_sorted (m : gmap N Tag) : StronglySorted key_le (btree_iter m).
Proof. apply Sorted_StronglySorted; [apply _ |]. apply Sorted_merge_sort. apply _. Qed.

Lemma btree_iter_nodup (m : gmap N Tag) : NoDup (btree_iter m).*1.
Proof.
  unfold btree_iter. rewrite (merge_sort_Permutation key_le (map_to_list m)).
  apply NoDup_fst_map_to_list.
Qed.

Lemma btree_iter_keyed (m : gmap N Tag) :
  tags_keyed m -> List.Forall (fun p => tag_id p.2 = p.1) (btree_iter m).
Proof.
  intros Hk. apply List.Forall_forall. intros [k tg] Hin. simpl.
  unfold btree_iter in Hin.
  apply (Permutation_in _ (merge_sort_Permutation key_le _)) in Hin.
  apply list_elem_of_In, elem_of_map_to_list in Hin. by apply Hk in Hin.
Qed.

Lemma ser_strongly_sorted (l : list (N * Tag)) :
  StronglySorted key_le l -> NoDup l.*1 -> List.Forall (fun p => tag_id p.2 = p.1) l ->
  StronglySorted (fun a b => (ser_tag_id a < ser_tag_id b)%N)
    (List.map (fun p => tag_to_serde p.2) l).
Proof.
  induction l as [|[k tg] l IH]; intros Hs Hnd Hk; simpl; constructor.
  - apply StronglySorted_inv in Hs as [Hs _]. apply NoDup_cons in Hnd as [_ Hnd].
    apply List.Forall_cons_iff in Hk as [_ Hk]. auto.
  - apply StronglySorted_inv in Hs as [_ Hle]. apply NoDup_cons in Hnd as [Hnin _].
    apply List.Forall_cons_iff in Hk as [Hk0 Hk]. simpl in Hk0.
    apply List.Forall_forall. intros y Hy. apply in_map_iff in Hy as [[k' tg'] [<- Hin]].
    rewrite List.Forall_forall in Hle, Hk. specialize (Hle _ Hin). specialize (Hk _ Hin).
    unfold key_le in Hle. simpl in *. rewrite Hk0, Hk.
    assert (k <> k').
    { intros ->. apply Hnin. apply list_elem_of_In. apply in_map_iff.
      exists (k', tg'). auto. }
    lia.
Qed.

(** [Task::to_serde] lists a task's tags by strictly ascending id, so
    without duplicates (the [BTreeMap] order), for a tag map keyed by
    the tags' ids. *)
Theorem to_serde_tags_ascending (t : Task) :
  tags_keyed (tags t) ->
  StronglySorted (fun a b => (ser_tag_id a < ser_tag_id b)%N) (ser_tags (task_to_serde t)).
Proof.
  intros Hk. simpl. apply ser_strongly_sorted.
  - apply btree_iter_sorted.
  - apply btree_iter_nodup.
  - by apply btree_iter_keyed.
Qed.

Lemma resolves_to_dec (map : TagMap) (l : list SerTag) (k : N) :
  {exists x, In x l /\ map !! ser_tag_id x = Some k} +
  {~ exists x, In x l /\ map !! ser_tag_id x = Some k}.
Proof.
  induction l as [|x l IH].
  - right. intros (? & [] & _).
  - destruct (decide (map !! ser_tag_id x = Some k)) as [Hx | Hx].
    + left. exists x. split; [left |]; done.
    + destruct IH as [IH | IH].
      * left. destruct IH as (y & Hy & Hyk). exists y. split; [right |]; done.
      * right. intros (y & [<- | Hy] & Hyk); [done |]. apply IH. eauto.
Qed.

Lemma resolve_tags_spec (templates : Templates) (map : TagMap) (acc r : gmap N Tag)
    (l : list SerTag) :
  resolve_tags templates map acc l = Ok r ->
  forall k,
    ((exists x, In x l /\ map !! ser_tag_id x = Some k) -> r !! k = Some (mkTag k)) /\
    (~ (exists x, In x l /\ map !! ser_tag_id x = Some k) -> r !! k = acc !! k).
Proof.
  revert acc. induction l as [|x l IH]; intros acc H k; simpl in H.
  - injection H as <-. split; [intros (? & [] & _) | done].
  - destruct (map !! ser_tag_id x) as [i|] eqn:Hx; [| done].
    destruct (IH _ H k) as [H1 H2]. split.
    + intros (y & Hy & Hyk).
      destruct (resolves_to_dec map l k) as [Hex | Hnex].
      * auto.
      * destruct Hy as [<- | Hy]; [| exfalso; eauto].
        rewrite H2 by done. rewrite Hx in Hyk. injection Hyk as ->.
        apply lookup_insert_eq.
    + intros Hnex.
      rewrite H2 by (intros (z & Hz & Hzk); apply Hnex; exists z; split; [right |]; done).
      apply lookup_insert_ne. intros <-. apply Hnex. exists x. split; [left |]; done.
Qed.

(** [Task::with_serde], on success: the task gets the counter's id, the
    summary and the registry; its tags are keyed by their ids, and it
    carries a tag exactly for each id the map resolves a serialized tag
    to (a repeated id is kept once). *)
Theorem task_with_serde_tags (t : SerTask) (templates : Templates) (map : TagMap)
    (next : Id) (task : Task) (next' : Id) :
  task_with_serde t templates map next = Ok (task, next') ->
  id task = next /\ next' = S next /\ summary task = ser_summary t /\
  task_templates task = templates /\ tags_keyed (tags task) /\
  forall k, is_Some (tags task !! k) <->
            exists x, In x (ser_tags t) /\ map !! ser_tag_id x = Some k.
Proof.
  unfold task_with_serde. intros H.
  destruct (resolve_tags templates map ∅ (ser_tags t)) as [r|e] eqn:Hr; simpl in H; [| done].
  injection H as <- <-. simpl.
  pose proof (resolve_tags_spec _ _ _ _ _ Hr) as Hspec.
  split; [done |]. split; [done |]. split; [done |]. split; [done |]. split.
  - intros k tg Hk. destruct (Hspec k) as [H1 H2].
    destruct (resolves_to_dec map (ser_tags t) k) as [Hex | Hnex].
    + rewrite H1 in Hk by done. injection Hk as <-. done.
    + rewrite H2, lookup_empty in Hk by done. done.
  - intros k. destruct (Hspec k) as [H1 H2]. split.
    + intros [tg Hk].
      destruct (resolves_to_dec map (ser_tags t) k) as [Hex | Hnex];
        [done |].
      rewrite H2, lookup_empty in Hk by done. done.
    + intros Hex. rewrite H1 by done. eauto.
Qed.

(** Ids below the counter, pairwise distinct: the invariant the id
    counter provides to a task collection. *)
Definition ids_ok (ts : Tasks) (next : Id) : Prop :=
  NoDup (List.map id (tasks ts)) /\ List.Forall (fun t => (id t < next)%nat) (tasks ts).

Lemma loop_ids (l : list SerTask) (templates : Templates) (map : TagMap) (acc r : list Task)
    (next next' : Id) :
  tasks_with_serde_loop l templates map acc next = Ok (r, next') ->
  exists fresh, r = acc ++ fresh /\ List.map id fresh = seq next (length l) /\
    next' = (next + length l)%nat /\ List.map summary fresh = List.map ser_summary l /\
    List.Forall (fun t => task_templates t = templates) fresh.
Proof.
  revert acc next. induction l as [|t l IH]; intros acc next H; simpl in H.
  - injection H as <- <-. exists []. rewrite app_nil_r. simpl.
    split; [done |]. split; [done |]. split; [lia |]. split; [done |]. constructor.
  - unfold task_with_serde in H.
    destruct (resolve_tags templates map ∅ (ser_tags t)) as [tg|e]; simpl in H; [| done].
    destruct (IH _ _ H) as (fresh & -> & Hids & -> & Hsum & Htmpl).
    exists (mkTask next (ser_summary t) tg templates :: fresh).
    rewrite <- app_assoc. simpl. rewrite Hids, Hsum.
    repeat split; try (f_equal; lia). constructor; done.
Qed.

(** [Tasks::with_serde], on success: the tasks come in the serialized
    order with their summaries, get the consecutive ids [next],
    [next + 1], ..., the counter advances by the number of tasks, and
    the collection satisfies the id invariant for the new counter. *)
Theorem tasks_with_serde_ids (l : list SerTask) (templates : Templates) (map : TagMap)
    (next : Id) (ts : Tasks) (next' : Id) :
  tasks_with_serde l templates map next = Ok (ts, next') ->
  List.map id (tasks ts) = seq next (length l) /\ next' = (next + length l)%nat /\
  List.map summary (tasks ts) = List.map ser_summary l /\
  tasks_templates ts = templates /\ ids_ok ts next'.
Proof.
  unfold tasks_with_serde. intros H.
  destruct (tasks_with_serde_loop l templates map [] next) as [[r n]|e] eqn:Hl; simpl in H; [| done].
  injection H as <- <-. simpl.
  destruct (loop_ids _ _ _ _ _ _ _ Hl) as (fresh & -> & Hids & -> & Hsum & _).
  simpl. split; [done |]. split; [done |]. split; [done |]. split; [done |].
  unfold ids_ok. simpl. split.
  - rewrite Hids. apply NoDup_seq.
  - apply List.Forall_forall. intros x Hx.
    apply (in_map id) in Hx. rewrite Hids in Hx. apply in_seq in Hx. lia.
Qed.

Lemma position_app_absent {A} (p : A -> bool) (l r : list A) :
  (forall x, In x l -> p x = false) ->
  position p (l ++ r) = (fun n => (length l + n)%nat) <$> position p r.
Proof.
  induction l as [|a l IH]; intros Hl; simpl.
  - by destruct (position p r).
  - rewrite Hl by (left; done). rewrite IH by (intros x Hx; apply Hl; right; done).
    by destruct (position p r).
Qed.

(** [remove] undoes [add]: with a counter differing from every id in
    the collection, removing the id [add] returned gives back the
    collection as it was. *)
Theorem add_then_remove (ts : Tasks) (s : string) (tgs : list Tag) (next : Id) :
  (forall x, In x (tasks ts) -> id x <> next) ->
  remove (snd (fst (add ts s tgs next))) (fst (fst (add ts s tgs next))) = Some ts.
Proof.
  intros Hfresh. destruct ts as [tmpl l]. unfold add, remove. simpl in *.
  rewrite position_app_absent by (intros x Hx; apply Nat.eqb_neq; auto).
  simpl. rewrite Nat.eqb_refl. simpl. rewrite Nat.add_0_r.
  rewrite delete_middle, app_nil_r. reflexivity.
Qed.

(** The id invariant is kept by every mutation of a collection: [add]
    (with the counter it advances), and [remove] and [update] when they
    succeed. *)
Theorem ids_ok_preserved (ts : Tasks) (next : Id) :
  ids_ok ts next ->
  (forall s tgs, ids_ok (snd (fst (add ts s tgs next))) (snd (add ts s tgs next))) /\
  (forall i ts', remove ts i = Some ts' -> ids_ok ts' next) /\
  (forall task ts', update ts task = Some ts' -> ids_ok ts' next).
Proof.
  intros [Hnd Hlt]. split; [| split].
  - intros s tgs. destruct ts as [tmpl l]. unfold add, ids_ok. simpl in *. split.
    + rewrite List.map_app. simpl. apply NoDup_app. split; [done |]. split.
      * intros x Hx Hy. apply list_elem_of_singleton in Hy. subst x.
        apply list_elem_of_In, in_map_iff in Hx as [t [Ht Hin]].
        rewrite List.Forall_forall in Hlt. specialize (Hlt t Hin). lia.
      * apply NoDup_singleton.
    + apply List.Forall_app. split; [| constructor; [simpl; lia | constructor]].
      eapply List.Forall_impl; [| exact Hlt]. simpl. intros t Ht. lia.
  - intros i ts' H. unfold remove in H.
    destruct (position (fun x => Nat.eqb (id x) i) (tasks ts)) as [n|] eqn:Hn; simpl in H; [| done].
    injection H as <-. destruct (position_split _ _ _ Hn) as (l1 & x & l2 & Hl & <- & _ & _).
    unfold ids_ok. simpl. rewrite Hl, delete_middle. rewrite Hl in Hnd, Hlt. split.
    + rewrite List.map_app in *. simpl in Hnd.
      apply NoDup_app in Hnd as (H1 & H2 & H3). apply NoDup_cons in H3 as [_ H3].
      apply NoDup_app. split; [done |]. split; [| done].
      intros y Hy Hy2. apply (H2 y Hy). apply elem_of_cons. by right.
    + apply List.Forall_app in Hlt as [H1 H2]. apply List.Forall_cons_iff in H2 as [_ H2].
      apply List.Forall_app. auto.
  - intros task ts' H. unfold update in H.
    destruct (position (fun x => Nat.eqb (id x) (id task)) (tasks ts)) as [n|] eqn:Hn;
      simpl in H; [| done].
    injection H as <-. destruct (position_split _ _ _ Hn) as (l1 & x & l2 & Hl & <- & Hx & _).
    apply Nat.eqb_eq in Hx.
    unfold ids_ok. simpl. rewrite Hl. rewrite Hl in Hnd, Hlt.
    rewrite <- (Nat.add_0_r (length l1)), insert_app_r. simpl. split.
    + rewrite List.map_app in *. simpl in *. by rewrite <- Hx.
    + apply List.Forall_app in Hlt as [H1 H2]. apply List.Forall_cons_iff in H2 as [Hx' H2].
      apply List.Forall_app. split; [done |]. constructor; [lia | done].
Qed.


End TaskMore.

(* ===================================================================== *)
(** * [validate_tags] and loading agree *)
(* ===================================================================== *)

Module ValidateFacts.
Import Tags SerTasks Tasks State SerTaskDoc.

Section Agree.
Variable tmpls : list SerTemplate.
Variable templates : Templates.
Variable map : TagMap.
Hypothesis map_valid : forall k, is_Some (map !! k) <-> is_valid tmpls k = true.

Lemma validate_tags_of_resolve (acc : gmap N Tag) (l : list SerTag) :
  validate_tags_of tmpls l =
  match resolve_tags templates map acc l with Ok _ => Ok tt | Err e => Err e end.
Proof.
  revert acc. induction l as [|x l IH]; intros acc; simpl; [done |].
  destruct (map !! ser_tag_id x) as [i|] eqn:Hx.
  - rewrite (proj1 (map_valid _)) by eauto. apply IH.
  - destruct (is_valid tmpls (ser_tag_id x)) eqn:Hv; [| done].
    apply map_valid in Hv. rewrite Hx in Hv. by destruct Hv.
Qed.

Lemma validate_tasks_loop (l : list SerTask) (acc : list Task) (next : Id) :
  validate_tasks tmpls l =
  match tasks_with_serde_loop l templates map acc next with Ok _ => Ok tt | Err e => Err e end.
Proof.
  revert acc next. induction l as [|t l IH]; intros acc next; simpl; [done |].
  unfold task_with_serde.
  rewrite (validate_tags_of_resolve ∅).
  destruct (resolve_tags templates map ∅ (ser_tags t)); simpl; [apply IH | done].
Qed.

End Agree.

(** [Tasks::validate_tags] and loading accept the same documents: when
    the validation map resolves exactly the ids the document's templates
    declare valid, [validate_tags] succeeds iff [Tasks::with_serde]
    does, and otherwise reports the same error, naming the same first
    invalid tag id. *)
Theorem validate_tags_agrees (doc : SerTaskDoc) (templates : Templates) (map : TagMap)
    (next : Id) :
  (forall k, is_Some (map !! k) <-> is_valid (doc_templates doc) k = true) ->
  validate_tags doc =
  match tasks_with_serde (doc_tasks doc) templates map next with
  | Ok _ => Ok tt
  | Err e => Err e
  end.
Proof.
  intros Hmap. unfold validate_tags, tasks_with_serde.
  rewrite (validate_tasks_loop _ templates map Hmap _ [] next).
  by destruct (tasks_with_serde_loop _ _ _ _ _).
Qed.

End ValidateFacts.

(* ===================================================================== *)
(** * Saving *)
(* ===================================================================== *)

Module SaveFacts.
Import Save.

Section Files.
(** A file system where a completed write leaves the written data in
    its file, and a write, completed or failed, touches no other file. *)
Variable FS : Type.
Variable write_file : string -> string -> FS -> result unit IoError * FS.
Variable read_file : string -> FS -> option string.
Hypothesis write_ok : forall p d fs fs',
  write_file p d fs = (Ok tt, fs') -> read_file p fs' = Some d.
Hypothesis write_frame : forall p d fs r fs' q,
  write_file p d fs = (r, fs') -> q <> p -> read_file q fs' = read_file q fs.

(** [State::save] with two distinct files: when it succeeds, both files
    hold the serialized states; when it fails, either the task file is
    untouched (the program state could not be saved, and the task state
    was not attempted), or the program file already holds the new
    program state while the task state was not saved: the
    inconsistency the code's TODO mentions. *)
Theorem save_outcome {P T : Type} (prog_to_json : P -> result string IoError)
    (task_to_json : T -> result string IoError) (prog_path task_path : string)
    (ps : P) (ts : T) (fs : FS) :
  prog_path <> task_path ->
  match save FS write_file prog_to_json task_to_json prog_path task_path ps ts fs with
  | (Ok _, fs') =>
      exists sp st, prog_to_json ps = Ok sp /\ task_to_json ts = Ok st /\
        read_file prog_path fs' = Some sp /\ read_file task_path fs' = Some st
  | (Err _, fs') =>
      read_file task_path fs' = read_file task_path fs \/
      exists sp, prog_to_json ps = Ok sp /\ read_file prog_path fs' = Some sp
  end.
Proof.
  intros Hne. unfold save, save_state.
  destruct (prog_to_json ps) as [sp|e]; [| by left].
  destruct (write_file prog_path sp fs) as [[[]|e] fs1] eqn:Hw1.
  - destruct (task_to_json ts) as [st|e].
    + destruct (write_file task_path st fs1) as [[[]|e] fs2] eqn:Hw2.
      * exists sp, st. split; [done |]. split; [done |]. split.
        -- rewrite (write_frame _ _ _ _ _ _ Hw2 Hne). by apply (write_ok _ _ _ _ Hw1).
        -- by apply (write_ok _ _ _ _ Hw2).
      * right. exists sp. split; [done |].
        rewrite (write_frame _ _ _ _ _ _ Hw2 Hne). by apply (write_ok _ _ _ _ Hw1).
    + right. exists sp. split; [done |]. by apply (write_ok _ _ _ _ Hw1).
  - left. apply (write_frame _ _ _ _ _ _ Hw1). auto.
Qed.

End Files.
End SaveFacts.

(* ===================================================================== *)
(** * Rendering helpers *)
(* ===================================================================== *)

Module RendererFacts.
Import TermRenderer.

(** [sanitize_offset] keeps the selection inside the window of [limit]
    rows starting at the returned offset, moving the window as little as
    possible: kept when the selection is already visible, moved up to the
    selection above it, moved down so the selection is the last row below
    it ([limit >= 1], and no [usize] overflow). *)
Theorem sanitize_offset_window (offset selection limit : N) :
  (1 <= limit)%N -> (offset + limit <= usize_bound)%N ->
  exists o, sanitize_offset offset selection limit = Some o /\
    (o <= selection < o + limit)%N /\
    ((offset <= selection < offset + limit)%N -> o = offset) /\
    ((selection < offset)%N -> o = selection) /\
    ((offset + limit <= selection)%N -> o = (selection + 1 - limit)%N).
Proof.
  intros H1 H2. unfold sanitize_offset, usize_sub, usize_add.
  unfold usize_bound in *.
  destruct (N.leb_spec selection offset) as [Hle | Hgt].
  - exists selection. split; [done |]. repeat split; intros; lia.
  - destruct (N.leb_spec 1 limit); [| lia]. simpl.
    destruct (N.ltb_spec (offset + (limit - 1)) (2 ^ 64)); [| lia]. simpl.
    destruct (N.ltb_spec (offset + (limit - 1)) selection).
    + destruct (N.leb_spec (limit - 1) selection); [| lia].
      eexists. split; [reflexivity |]. repeat split; intros; lia.
    + eexists. split; [reflexivity |]. repeat split; intros; lia.
Qed.

Lemma ascii_char_boundary (s : list Ascii.ascii) (i : nat) :
  List.Forall (fun c => (Ascii.N_of_ascii c < 128)%N) s -> (i < length s)%nat ->
  is_char_boundary s i = true.
Proof.
  intros Hs Hi. unfold is_char_boundary.
  destruct (lookup_lt_is_Some_2 s i Hi) as [b Hb]. rewrite Hb.
  apply list_elem_of_lookup_2, list_elem_of_In in Hb.
  rewrite List.Forall_forall in Hs. specialize (Hs b Hb).
  apply negb_true_iff, N.eqb_neq. rewrite N.shiftr_div_pow2.
  assert (Ascii.N_of_ascii b / 2 ^ 6 < 2)%N by (apply N.Div0.div_lt_upper_bound; simpl; lia).
  lia.
Qed.

(** [align_center] on an ASCII string returns exactly [width] bytes,
    when the string fits or [width >= 3]: a string that fits is centred
    between runs of spaces, the one on the right at most one longer; a
    longer one keeps its first [width - 3] bytes and ends in "...". *)
Theorem align_center_width (s : list Ascii.ascii) (width : nat) :
  List.Forall (fun c => (Ascii.N_of_ascii c < 128)%N) s ->
  (length s <= width \/ 3 <= width)%nat ->
  exists r, align_center s width = Some r /\ length r = width /\
    ((length s <= width)%nat ->
     exists pl pr, r = List.repeat (Ascii.ascii_of_nat 32) pl ++ s ++
                       List.repeat (Ascii.ascii_of_nat 32) pr /\ (pl <= pr <= pl + 1)%nat) /\
    ((width < length s)%nat -> r = take (width - 3) s ++ bytes "...").
Proof.
  intros Hs Hw. unfold align_center.
  destruct (Nat.ltb_spec width (length s)) as [Hlt | Hge].
  - destruct (Nat.leb_spec 3 width); [| lia].
    unfold replace_range_to_end. rewrite ascii_char_boundary by (done || lia).
    eexists. split; [reflexivity |]. split.
    + rewrite length_app, length_take. simpl. lia.
    + split; [lia | done].
  - destruct (Nat.ltb_spec (length s) width) as [Hlt | Hge'].
    + pose proof (Nat.div_mod (width - length s) 2 ltac:(lia)).
      pose proof (Nat.mod_upper_bound (width - length s) 2 ltac:(lia)).
      eexists. split; [reflexivity |]. split.
      * rewrite !length_app, !repeat_length. lia.
      * split; [| lia]. intros _. eexists _, _. split; [reflexivity |]. lia.
    + exists s. split; [reflexivity |]. split; [lia |]. split; [| lia].
      intros _. exists 0%nat, 0%nat. simpl. rewrite app_nil_r. split; [done | lia].
Qed.

End RendererFacts.

Module SourceTests.
Import Selection.

Example modulo_results :
  List.map (fun x => modulo x 3) [-4; -3; -2; -1; 0; 1; 2; 3; 4; 5]
  = List.map Some [2; 0; 1; 2; 0; 1; 2; 0; 1; 2].
Proof. reflexivity. Qed.

Example selection_state_immediate_advancement :
  match normalize (advance_n 4 (new 42%Z)) [42; 43; 44] with
  | Some (idx, st) => idx = 1%nat /\ has_cycled st 3 = true
  | None => False
  end.
Proof. simpl. split; reflexivity. Qed.

(** [selection_state_reset_cycled], as a run of operations. *)
Example selection_state_reset_cycled :
  let iter := [3; 9; 4] in
  run [OpAdvance; OpAdvance; OpAdvance; OpAdvance; OpNormalize iter; OpAdvance;
       OpNormalize iter; OpResetCycled; OpAdvance; OpNormalize iter; OpAdvance;
       OpNormalize iter; OpAdvance; OpNormalize iter]
      (new 4%Z)
  = Some (mkState (Normalized 1) false 0 3) /\
  has_cycled (mkState (Normalized 1) false 0 3 : SelectionState Z) 3 = false /\
  has_cycled (advance (mkState (Normalized 1) false 0 3 : SelectionState Z)) 3 = true.
Proof. repeat split. Qed.

Example reverse_selection :
  let iter := [2; 1; 3] in
  option_map fst (normalize (advance (reverse (new 1%Z) true)) iter) = Some 0%nat /\
  run [OpReverse true; OpAdvance; OpNormalize iter; OpAdvance; OpNormalize iter;
       OpAdvance; OpNormalize iter; OpReverse false; OpNormalize iter; OpAdvance;
       OpNormalize iter; OpAdvance] (new 1%Z)
  = Some (mkState (Normalized 2) false 1 (-1)).
Proof. split; reflexivity. Qed.

Example task_completion :
  Tasks.is_complete Fixtures.task_c = false /\
  Tasks.is_complete (Tasks.toggle_complete Fixtures.task_c) = true.
Proof. split; reflexivity. Qed.

Example load_state_with_invalid_tag :
  State.with_serde unit Fixtures.query_with_serde Fixtures.templates_with_serde
    (State.mkSerProgState unit []) ""
    (State.mkSerTaskState [] [SerTasks.mkSerTask "a task!" [Tags.mkSerTag 42]]) "" 0
  = Err (mkIoError InvalidInput "Encountered invalid tag Id 42").
Proof. reflexivity. Qed.

End SourceTests.

(* ===================================================================== *)
(** * The claims at concrete inputs *)
(* ===================================================================== *)

Module Witnesses.
Import Selection SelectionFacts Tags SerTasks Tasks TaskFacts State StateFacts.

Lemma normalize_forward_advances_witness :
  exists idx st',
    normalize (advance_n 4 (Selection.new 42%Z)) [42; 43; 44] = Some (idx, st') /\
    Z.of_nat idx = (Z.of_nat 0 + Z.of_nat 4) mod Z.of_nat (length [42; 43; 44]) /\
    0 <= (Z.of_nat 0 + Z.of_nat 4) mod Z.of_nat (length [42; 43; 44]) /\
    (idx < length [42; 43; 44])%nat /\
    selection st' = Normalized idx /\ advanced st' = 0.
Proof.
  apply (normalize_forward_advances (Selection.new 42%Z) [42; 43; 44] 0 4);
    [discriminate | reflexivity | reflexivity | reflexivity].
Defined.

Lemma has_cycled_threshold_witness :
  has_cycled (Selection.mkState (Start 4%Z) false 0 4) 3 = true /\
  (count_advances [OpAdvance; OpNormalize [3; 9; 4]; OpAdvance; OpAdvance; OpAdvance] > 3)%nat.
Proof.
  destruct (has_cycled_threshold 3 (Selection.mkState (Start 4%Z) false 0 7)) as (H1 & H2 & H3 & H4).
  split.
  - destruct (has_cycled_threshold 3 (Selection.mkState (Start 4%Z) false 0 4)) as (H & _).
    apply H. simpl. lia.
  - apply (H4 [OpAdvance; OpNormalize [3; 9; 4]; OpAdvance; OpAdvance; OpAdvance]
              (Selection.mkState (Normalized 0) false 3 4));
      reflexivity.
Defined.

Lemma reverse_cancels_advances_witness :
  exists st', normalize (advance_n 5 (reverse (advance_n 5 (Selection.new 1%Z)) true)) [2; 1; 3]
              = Some (1%nat, st').
Proof.
  apply (reverse_cancels_advances (Selection.new 1%Z) [2; 1; 3] 1 5);
    [simpl; lia | reflexivity | reflexivity | reflexivity].
Defined.

Lemma normalize_partial_witness :
  normalize (Selection.new 5%Z) [2; 1; 3] = None.
Proof.
  apply (proj2 (normalize_partial (T := Z)) (Selection.new 5%Z) 5%Z [2; 1; 3]);
    [reflexivity | simpl; intuition discriminate].
Defined.

Lemma tasks_serde_roundtrip_witness :
  exists ts' next',
    tasks_with_serde (tasks_to_serde Fixtures.three_tasks) (tasks_templates Fixtures.three_tasks)
      Fixtures.registry_map 10 = Ok (ts', next') /\
    tasks_templates ts' = tasks_templates Fixtures.three_tasks /\
    Forall2 (fun a b => summary a = summary b /\ tags a = tags b)
      (tasks Fixtures.three_tasks) (tasks ts').
Proof.
  apply (tasks_serde_roundtrip Fixtures.three_tasks Fixtures.registry_map 10).
  apply Forall_forall. intros t Ht. apply list_elem_of_In in Ht.
  destruct Ht as [<- | [<- | [<- | []]]]; split; intros k tg Hk; simpl in Hk;
    repeat rewrite lookup_insert_Some in Hk;
    rewrite ?lookup_singleton_Some, ?lookup_empty in Hk;
    repeat match goal with
           | H : _ /\ _ |- _ => destruct H
           | H : _ \/ _ |- _ => destruct H
           end; subst; try done.
Defined.

Lemma toggle_complete_self_inverse_witness :
  tags (toggle_complete (toggle_complete Fixtures.task_b)) = tags Fixtures.task_b /\
  is_complete (toggle_complete (toggle_complete Fixtures.task_b)) = is_complete Fixtures.task_b.
Proof.
  destruct (toggle_complete_self_inverse Fixtures.task_b) as (_ & _ & _ & H4 & H5).
  - intros k tg Hk. simpl in Hk.
    repeat rewrite lookup_insert_Some in Hk.
    rewrite ?lookup_singleton_Some in Hk.
    repeat match goal with
           | H : _ /\ _ |- _ => destruct H
           | H : _ \/ _ |- _ => destruct H
           end; subst; done.
  - split; assumption.
Defined.

Lemma add_appends_witness :
  Forall (fun x => id x <> 3%nat) (tasks Fixtures.three_tasks).
Proof.
  destruct (add_appends Fixtures.three_tasks "d" [] 3) as (t & _ & _ & Hid & _ & _ & Hfresh).
  apply Forall_forall. intros x Hx. apply list_elem_of_In in Hx.
  rewrite <- Hid. apply Hfresh; [| exact Hx].
  intros y Hy. simpl in Hy.
  destruct Hy as [<- | [<- | [<- | []]]]; simpl; lia.
Defined.

Lemma remove_update_by_scan_witness :
  remove Fixtures.three_tasks 1%nat = Some (mkTasks Fixtures.registry [Fixtures.task_a; Fixtures.task_c]) /\
  update Fixtures.three_tasks (mkTask 9%nat "z" ∅ Fixtures.registry) = None.
Proof.
  destruct remove_update_by_scan as (H1 & _ & _ & H4).
  split.
  - destruct (H1 Fixtures.three_tasks 1%nat) as (l1 & t & l2 & Hl & Hid & Hl1 & Hrm).
    + exists Fixtures.task_b. simpl. auto.
    + rewrite Hrm. simpl in Hl.
      destruct l1 as [|a [|b [|c l1]]]; simpl in Hl; injection Hl; intros; subst;
        simpl in Hid; try discriminate; try reflexivity.
  - apply H4. intros x Hx. simpl in Hx.
    destruct Hx as [<- | [<- | [<- | []]]]; simpl; lia.
Defined.

Lemma invalid_tag_aborts_load_witness :
  State.with_serde unit Fixtures.query_with_serde Fixtures.templates_with_serde
    (mkSerProgState unit []) "prog"
    (mkSerTaskState [mkSerTemplate 7 "work"] [mkSerTask "x" [mkSerTag 7; mkSerTag 42]]) "tasks" 0
  = Err (invalid_tag_error 42) /\
  Fmt.contains (io_msg (invalid_tag_error 42)) "42" = true.
Proof.
  destruct (invalid_tag_aborts_load unit Fixtures.query_with_serde Fixtures.templates_with_serde
              (mkSerProgState unit []) "prog"
              (mkSerTaskState [mkSerTemplate 7 "work"] [mkSerTask "x" [mkSerTag 7; mkSerTag 42]])
              "tasks" 0 (mkTemplates [mkTemplate 7 "work"] 0) {[7%N := 7%N]})
    as (pre & t & post & tpre & tag & tpost & Hl & Ht & _ & Htpre & Htag & _ & Hst & Hmsg).
  - reflexivity.
  - exists (mkSerTask "x" [mkSerTag 7; mkSerTag 42]), (mkSerTag 42).
    split; [left; reflexivity |]. split; [right; left; reflexivity |]. reflexivity.
  - simpl in Hl.
    destruct pre as [|? pre]; [| destruct pre; discriminate].
    injection Hl as <-. simpl in Ht.
    destruct tpre as [|a [|b tpre]]; simpl in Ht; injection Ht; intros; subst.
    + discriminate.
    + split; assumption.
    + destruct tpre; discriminate.
Defined.

(** C5 as stated fails: with two unregistered tag ids 1 and 42 on one
    task, the load fails with "Encountered invalid tag Id 1", whose
    message does not contain "42". *)
Lemma invalid_tag_message_omits_later_id :
  (∅ : TagMap) !! 42%N = None /\
  State.with_serde unit Fixtures.query_with_serde Fixtures.templates_with_serde
    (mkSerProgState unit []) "prog"
    (mkSerTaskState [] [mkSerTask "x" [mkSerTag 1; mkSerTag 42]]) "tasks" 0
  = Err (mkIoError InvalidInput "Encountered invalid tag Id 1") /\
  Fmt.contains "Encountered invalid tag Id 1" "42" = false.
Proof. split; [reflexivity | split; reflexivity]. Qed.

Lemma load_missing_files_default_witness :
  (exists st,
     State.new unit Fixtures.query_with_serde Fixtures.templates_with_serde string
       Fixtures.open_file string Fixtures.io_of_json Fixtures.parse_prog Fixtures.parse_task
       "missing" "missing" 0%nat = Ok (st, 0%nat) /\
     tasks (st_tasks st) = [] /\ queries st = [all_query] /\
     ser_queries unit (fst (to_serde unit (fun _ => tt) Fixtures.templates_to_serde st)) = []) /\
  load_state string Fixtures.open_file string Fixtures.io_of_json default_task_state
    Fixtures.parse_task "denied"
  = Err (mkIoError PermissionDenied "Permission denied").
Proof.
  destruct (load_missing_files_default unit Fixtures.query_with_serde (fun _ => tt)
              Fixtures.templates_with_serde Fixtures.templates_to_serde string
              Fixtures.open_file string Fixtures.io_of_json Fixtures.parse_prog
              Fixtures.parse_task) as (_ & H2 & _ & _ & H5 & _).
  split.
  - apply (H5 "missing" "missing" (mkIoError NotFound "No such file or directory")
              (mkIoError NotFound "No such file or directory") 0%nat); reflexivity.
  - apply (H2 _ default_task_state Fixtures.parse_task "denied"
              (mkIoError PermissionDenied "Permission denied")); [reflexivity | discriminate].
Defined.

End Witnesses.

(* ===================================================================== *)
(** * The further properties at concrete inputs *)
(* ===================================================================== *)

Module ExtraWitnesses.
Import Tags SerTasks Tasks TaskFacts State.

Lemma normalize_backward_advances_witness :
  exists idx st',
    Selection.normalize (Selection.advance_n 7 (Selection.reverse (Selection.new 5) true)) [3; 4; 5]
      = Some (idx, st') /\
    Z.of_nat idx = (Z.of_nat 2 - Z.of_nat 7) mod Z.of_nat (length [3; 4; 5]) /\
    (idx < length [3; 4; 5])%nat.
Proof.
  apply (SelectionMore.normalize_backward_advances
           (Selection.reverse (Selection.new 5) true) [3; 4; 5] 2 7);
    [discriminate | reflexivity | reflexivity | reflexivity].
Defined.

Lemma normalize_absorbs_witness :
  Selection.normalize (Selection.advance_n 5 (Selection.mkState (Selection.Normalized 1) false 0 4))
    [42; 43; 44] =
  Selection.normalize (Selection.advance_n 5 (Selection.advance_n 4 (Selection.new 42))) [42; 43; 44].
Proof.
  apply (SelectionMore.normalize_absorbs (Selection.advance_n 4 (Selection.new 42))
           (Selection.mkState (Selection.Normalized 1) false 0 4) [42; 43; 44] 1 5).
  reflexivity.
Defined.


Lemma start_first_occurrence_witness :
  Selection.normalize (Selection.new 7) ([1; 2] ++ 7 :: [7; 3]) =
  Some (length [1; 2], Selection.mkState (Selection.Normalized (length [1; 2])) false 0 0).
Proof.
  apply (SelectionMore.start_first_occurrence 7 [1; 2] [7; 3]). simpl. lia.
Defined.

Lemma has_advanced_after_witness :
  Selection.has_advanced (Selection.advance_n 3 (Selection.new 1)) = negb (Nat.eqb 3 0).
Proof.
  apply (SelectionMore.has_advanced_after (Selection.new 1) 3). reflexivity.
Defined.

Lemma to_serde_tags_ascending_witness :
  StronglySorted (fun a b => (ser_tag_id a < ser_tag_id b)%N)
    (ser_tags (task_to_serde Fixtures.task_b)).
Proof.
  apply (TaskMore.to_serde_tags_ascending Fixtures.task_b).
  intros k tg Hk. simpl in Hk.
  repeat rewrite lookup_insert_Some in Hk.
  rewrite ?lookup_singleton_Some in Hk.
  repeat match goal with
         | H : _ /\ _ |- _ => destruct H
         | H : _ \/ _ |- _ => destruct H
         end; subst; done.
Defined.

Lemma task_with_serde_tags_witness :
  match task_with_serde (mkSerTask "x" [mkSerTag 7; mkSerTag 0; mkSerTag 7])
          Fixtures.registry Fixtures.registry_map 5 with
  | Ok (task, next') => id task = 5%nat /\ next' = 6%nat /\ tags_keyed (tags task)
  | Err _ => False
  end.
Proof.
  destruct (task_with_serde (mkSerTask "x" [mkSerTag 7; mkSerTag 0; mkSerTag 7])
              Fixtures.registry Fixtures.registry_map 5) as [[task next']|e] eqn:H.
  - destruct (TaskMore.task_with_serde_tags _ _ _ _ task next' H) as (H1 & H2 & _ & _ & H5 & _).
    split; [done |]. split; [done |]. done.
  - vm_compute in H. discriminate.
Defined.

Lemma tasks_with_serde_ids_witness :
  match tasks_with_serde (tasks_to_serde Fixtures.three_tasks) Fixtures.registry
          Fixtures.registry_map 10 with
  | Ok (ts, next') => List.map id (tasks ts) = [10; 11; 12]%nat /\ next' = 13%nat /\
                      TaskMore.ids_ok ts next'
  | Err _ => False
  end.
Proof.
  destruct (tasks_with_serde (tasks_to_serde Fixtures.three_tasks) Fixtures.registry
              Fixtures.registry_map 10) as [[ts next']|e] eqn:H.
  - destruct (TaskMore.tasks_with_serde_ids _ _ _ _ ts next' H) as (H1 & H2 & _ & _ & H5).
    split; [exact H1 |]. split; [exact H2 | exact H5].
  - vm_compute in H. discriminate.
Defined.

Lemma add_then_remove_witness :
  remove (snd (fst (add Fixtures.three_tasks "d" [] 3))) (fst (fst (add Fixtures.three_tasks "d" [] 3)))
  = Some Fixtures.three_tasks.
Proof.
  apply (TaskMore.add_then_remove Fixtures.three_tasks "d" [] 3).
  intros x Hx. simpl in Hx. destruct Hx as [<- | [<- | [<- | []]]]; simpl; lia.
Defined.

Lemma ids_ok_preserved_witness :
  TaskMore.ids_ok (snd (fst (add Fixtures.three_tasks "d" [] 3))) (snd (add Fixtures.three_tasks "d" [] 3)).
Proof.
  destruct (TaskMore.ids_ok_preserved Fixtures.three_tasks 3) as (H1 & _ & _).
  - split; apply (bool_decide_unpack _); reflexivity.
  - apply H1.
Defined.

Definition doc_with_unknown : SerTaskDoc.SerTaskDoc :=
  SerTaskDoc.mkSerTaskDoc [mkSerTemplate 0 "complete"; mkSerTemplate 7 "work"]
    [mkSerTask "a" [mkSerTag 7]; mkSerTask "b" [mkSerTag 3; mkSerTag 5]].

Lemma validate_tags_agrees_witness :
  SerTaskDoc.validate_tags doc_with_unknown =
  match tasks_with_serde (SerTaskDoc.doc_tasks doc_with_unknown) Fixtures.registry
          Fixtures.registry_map 0 with
  | Ok _ => Ok tt
  | Err e => Err e
  end.
Proof.
  apply ValidateFacts.validate_tags_agrees.
  intros k.
  change (SerTaskDoc.is_valid _ k) with (N.eqb 0 k || (N.eqb 7 k || false)).
  destruct (N.eqb_spec 0 k) as [<- | H0]; [split; [intros _; reflexivity | intros _; eexists; reflexivity] |].
  destruct (N.eqb_spec 7 k) as [<- | H7]; [split; [intros _; reflexivity | intros _; eexists; reflexivity] |].
  unfold Fixtures.registry_map. rewrite lookup_insert_ne, lookup_singleton_ne by done.
  split; [intros [? ?]; done | intros ?; discriminate].
Defined.

Lemma mem_write_ok (p d : string) (fs fs' : MemFs.FS) :
  MemFs.write_file p d fs = (Ok tt, fs') -> MemFs.read_file p fs' = Some d.
Proof.
  unfold MemFs.write_file, MemFs.read_file. destruct (String.eqb p "ro"); intros H; [done |].
  injection H as <-. apply lookup_insert_eq.
Qed.

Lemma mem_write_frame (p d : string) (fs : MemFs.FS) (r : result unit IoError) (fs' : MemFs.FS)
    (q : string) :
  MemFs.write_file p d fs = (r, fs') -> q <> p -> MemFs.read_file q fs' = MemFs.read_file q fs.
Proof.
  unfold MemFs.write_file, MemFs.read_file. destruct (String.eqb p "ro"); intros H Hq;
    injection H as <- <-; [done |].
  apply lookup_insert_ne. congruence.
Qed.

Lemma save_outcome_witness :
  match Save.save MemFs.FS MemFs.write_file (fun s : string => @Ok string IoError s)
          (fun s : string => @Ok string IoError s) "prog" "ro" "P" "T" {["ro" := "old"]} with
  | (Ok _, fs') =>
      exists sp st, @Ok string IoError "P" = Ok sp /\ @Ok string IoError "T" = Ok st /\
        MemFs.read_file "prog" fs' = Some sp /\ MemFs.read_file "ro" fs' = Some st
  | (Err _, fs') =>
      MemFs.read_file "ro" fs' = MemFs.read_file "ro" {["ro" := "old"]} \/
      exists sp, @Ok string IoError "P" = Ok sp /\ MemFs.read_file "prog" fs' = Some sp
  end.
Proof.
  apply (SaveFacts.save_outcome MemFs.FS MemFs.write_file MemFs.read_file
           mem_write_ok mem_write_frame).
  discriminate.
Defined.

Lemma sanitize_offset_window_witness :
  TermRenderer.sanitize_offset 2 9 4 = Some 6%N.
Proof.
  destruct (RendererFacts.sanitize_offset_window 2 9 4) as (o & Ho & _ & _ & _ & H5);
    [lia | unfold TermRenderer.usize_bound; lia |].
  rewrite Ho, H5 by lia. reflexivity.
Defined.

Lemma align_center_width_witness :
  option_map length (TermRenderer.align_center (TermRenderer.bytes "that's a test") 8) = Some 8%nat.
Proof.
  destruct (RendererFacts.align_center_width (TermRenderer.bytes "that's a test") 8)
    as (r & Hr & Hlen & _ & _).
  - apply (bool_decide_unpack _). reflexivity.
  - right. lia.
  - rewrite Hr. simpl. rewrite Hlen. reflexivity.
Defined.

End ExtraWitnesses.
